(** * Orders service (backend/routes/orders.js)

    A shallow embedding of the in-memory orders router: the order registry
    (a JS [Map]), the identifier counter, the registry of event-stream
    clients (a JS [Set]) and the route handlers, written as functions from
    a request and the module state to a response and the next module
    state.  A handler is modelled from the point where the [auth]
    middleware has let the request through; the keep-alive timer of an
    event stream is left out.  A request body is what [express.json()]
    parsed: an element of [items] is an object or [null], and reading a
    property of [null] throws.

    JS numbers are IEEE 754 doubles: prices, quantities, the payout and
    the identifier counter are primitive floats.

    The category carousel of the front end
    (src/components/FoodCategorySectionn.js) is embedded beside it: its
    index, the two arrows and the slider computed from the index. *)

From Stdlib Require Import ZArith PArith Bool List Sorted String Ascii Lia.
From Stdlib Require Import Floats DecimalString DecimalZ.
Import ListNotations.

Local Open Scope string_scope.

(** ** JavaScript values and numbers *)

Module Js.

(** The primitive values a JSON body can put in a numeric field. *)
Inductive JsValue : Type :=
| JUndefined                      (* the property is absent *)
| JNull
| JBool (b : bool)
| JNumber (x : float)
| JString (s : string).

(** [0.1] and [30] as doubles; [0x1.999999999999ap-4] is the double the
    literal [0.1] denotes. *)
Definition tenth : float := 0x1.999999999999ap-4%float.
Definition thirty : float := 30%float.

(** ToBoolean. *)
Definition truthy (v : JsValue) : bool :=
  match v with
  | JUndefined | JNull => false
  | JBool b => b
  | JNumber x => negb (PrimFloat.is_zero x || PrimFloat.is_nan x)
  | JString s => negb (String.eqb s "")
  end.

(** [a || b]. *)
Definition or_else (a b : JsValue) : JsValue :=
  if truthy a then a else b.

(** The same operator on optional text ([None] is [undefined]; the empty
    string is falsy). *)
Definition truthy_text (a : option string) : bool :=
  match a with
  | Some s => negb (String.eqb s "")
  | None => false
  end.

Definition or_text (a b : option string) : option string :=
  if truthy_text a then a else b.

Definition or_default (a : option string) (d : string) : string :=
  match a with
  | Some s => if String.eqb s "" then d else s
  | None => d
  end.

Section Number.

(** StringToNumber belongs to the JS runtime. *)
Variable StringToNumber : string -> float.

(** [Number(v)]. *)
Definition Number (v : JsValue) : float :=
  match v with
  | JUndefined => nan
  | JNull => 0%float
  | JBool true => 1%float
  | JBool false => 0%float
  | JNumber x => x
  | JString s => StringToNumber s
  end.

End Number.

(** The double holding the integer [n], for [|n| <= 2^53]. *)
Definition float_of_Z (n : Z) : float :=
  let a := PrimFloat.of_uint63 (Uint63.of_Z (Z.abs n)) in
  if (n <? 0)%Z then PrimFloat.opp a else a.

(** [Math.round(x)]: the integral double closest to [x], ties going up;
    a result that is zero keeps the sign of [x].  Non-finite values,
    zeros and doubles with a non-negative exponent (all integral) are
    returned as they are. *)
Definition Math_round (x : float) : float :=
  match Prim2SF x with
  | S754_finite s m e =>
      if (0 <=? e)%Z then x
      else
        let d := Z.shiftl 1 (- e) in
        let n := if s then Z.neg m else Z.pos m in
        let r := ((2 * n + d) / (2 * d))%Z in
        if (r =? 0)%Z then (if s then neg_zero else zero)
        else float_of_Z r
  | _ => x
  end.

(** [Math.max(a, b)]: NaN if either is NaN, and [+0] is larger than [-0]. *)
Definition Math_max (a b : float) : float :=
  if PrimFloat.is_nan a || PrimFloat.is_nan b then nan
  else if PrimFloat.ltb a b then b
  else if PrimFloat.ltb b a then a
  else if PrimFloat.get_sign a then b else a.

(** The integer a double holds, if it holds one. *)
Definition integer_of_float (x : float) : option Z :=
  match Prim2SF x with
  | S754_zero _ => Some 0%Z
  | S754_finite s m e =>
      let sign := fun z : Z => if s then (- z)%Z else z in
      if (0 <=? e)%Z then Some (sign (Z.pos m * 2 ^ e)%Z)
      else if (Z.pos m mod 2 ^ (- e) =? 0)%Z
           then Some (sign (Z.pos m / 2 ^ (- e))%Z)
           else None
  | _ => None
  end.

(** The decimal digits of an integer. *)
Definition decimal (n : Z) : string := NilEmpty.string_of_int (Z.to_int n).

Section ToString.

(** Number::toString on the doubles that are not integers of magnitude up
    to [2^53] belongs to the JS runtime. *)
Variable Number_toString_other : float -> string.

(** [String(x)]: an integer of magnitude up to [2^53] prints as its
    decimal digits. *)
Definition Number_toString (x : float) : string :=
  match integer_of_float x with
  | Some n =>
      if (Z.abs n <=? 2 ^ 53)%Z then decimal n else Number_toString_other x
  | None => Number_toString_other x
  end.

End ToString.

End Js.

Import Js.

(** ** Data model *)

(** A line item of the request body.  [price] and [quantity] are read as
    properties of the item and are [JUndefined] when absent.  An element
    of the [items] array is an item or [null]: [option Item], with [None]
    for [null]. *)
Record Item : Type := mkItem {
  item_name : option string;
  price : JsValue;
  quantity : JsValue
}.

(** [deliveryAddress] is free text or an object with [street] and [city]. *)
Inductive Address : Type :=
| AddressText (s : string)
| AddressObject (street city : option string).

(** [req.user], as the [auth] middleware leaves it. *)
Record User : Type := mkUser {
  user__id : option string;
  user_id : option string;
  user_name : option string;
  user_phone : option string
}.

Record Driver : Type := mkDriver {
  driver_id : option string;
  driver_name : string
}.

(** The order object.  [None] in [userId] and [restaurantId] is [null];
    [driver] is absent until the order is assigned. *)
Record Order : Type := mkOrder {
  id : string;
  userId : option string;
  restaurantId : option string;
  customerName : string;
  customerPhone : string;
  items : list (option Item);
  deliveryAddress : option Address;
  deliveryInstructions : string;
  paymentMethod : option string;
  createdAt : string;
  status : string;
  payoutAmount : float;
  restaurantName : string;
  pickupAddress : string;
  dropAddress : string;
  paymentType : string;
  driver : option Driver
}.

(** [order.status = s] *)
Definition set_status (s : string) (o : Order) : Order :=
  mkOrder (id o) (userId o) (restaurantId o) (customerName o)
    (customerPhone o) (items o) (deliveryAddress o) (deliveryInstructions o)
    (paymentMethod o) (createdAt o) s (payoutAmount o) (restaurantName o)
    (pickupAddress o) (dropAddress o) (paymentType o) (driver o).

(** [order.driver = d] *)
Definition set_driver (d : Driver) (o : Order) : Order :=
  mkOrder (id o) (userId o) (restaurantId o) (customerName o)
    (customerPhone o) (items o) (deliveryAddress o) (deliveryInstructions o)
    (paymentMethod o) (createdAt o) (status o) (payoutAmount o)
    (restaurantName o) (pickupAddress o) (dropAddress o) (paymentType o)
    (Some d).

(** *** The registry: a JS [Map] from identifiers to orders

    A [Map] iterates in insertion order and [set] on a present key keeps
    the key's position, so the registry is an association list.  It
    holds the orders themselves: every order is stored under its own
    identifier (see [served_keys_match]), so no order object is reachable
    through two keys. *)
Definition Map : Type := list (string * Order).

Fixpoint Map_get (k : string) (m : Map) : option Order :=
  match m with
  | [] => None
  | (k', v) :: m' => if String.eqb k k' then Some v else Map_get k m'
  end.

Fixpoint Map_set (k : string) (v : Order) (m : Map) : Map :=
  match m with
  | [] => [(k, v)]
  | (k', v') :: m' =>
      if String.eqb k k' then (k, v) :: m' else (k', v') :: Map_set k v m'
  end.

Definition Map_values (m : Map) : list Order := map snd m.

(** [list.includes(s)] *)
Definition includes (l : list string) (s : string) : bool :=
  existsb (String.eqb s) l.

(** *** Event-stream clients: a JS [Set] of response objects

    A response object has an identity and a stream; [res_writable] tells
    whether [res.write] returns normally or throws. *)
Record Res : Type := mkRes {
  res_id : nat;
  res_writable : bool;
  res_written : list string
}.

Definition Set_has (rid : nat) (s : list Res) : bool :=
  existsb (fun r => Nat.eqb (res_id r) rid) s.

Definition Set_add (r : Res) (s : list Res) : list Res :=
  if Set_has (res_id r) s then s else s ++ [r].

Definition Set_delete (rid : nat) (s : list Res) : list Res :=
  filter (fun r => negb (Nat.eqb (res_id r) rid)) s.

(** *** Module state *)
Record State : Type := mkState {
  inMemoryOrders : Map;
  nextOrderNumericId : float;
  sseClients : list Res
}.

Definition initial_state : State := mkState [] 1010%float [].

(** ** Statements that may throw *)

Inductive Completion (A : Type) : Type :=
| Normal (a : A)
| Throw (e : string).
Arguments Normal {A} a.
Arguments Throw {A} e.

(** Computations over the module state. *)
Definition M (A : Type) : Type := State -> Completion A * State.

Definition ret {A} (a : A) : M A := fun st => (Normal a, st).

Definition bind {A B} (m : M A) (f : A -> M B) : M B :=
  fun st =>
    match m st with
    | (Normal a, st') => f a st'
    | (Throw e, st') => (Throw e, st')
    end.

Notation "x <- m ;; k" := (bind m (fun x => k))
  (at level 61, m at next level, right associativity).
Notation "m ;;; k" := (bind m (fun _ => k))
  (at level 61, right associativity).

(** ** Requests and responses *)

(** The body of [POST /]. *)
Record CreateBody : Type := mkCreateBody {
  body_items : list (option Item);
  body_deliveryAddress : option Address;
  body_paymentMethod : option string;
  body_deliveryInstructions : option string;
  body_restaurantId : option string;
  body_customerName : option string;
  body_customerPhone : option string;
  body_restaurantName : option string;
  body_pickupAddress : option string
}.

(** A request to [POST /]: the caller [auth] attached, the body, and what
    [new Date().toISOString()] returns while it is handled. *)
Record CreateRequest : Type := mkCreateRequest {
  create_user : option User;
  create_body : CreateBody;
  create_now : string
}.

Inductive ResponseBody : Type :=
| BodyOrder (o : Order)
| BodyOrders (l : list Order)
| BodyError (error : string)
| BodyErrors (errors : list string).

(** [res.status(code).json(body)] *)
Record Response : Type := mkResponse {
  statusCode : nat;
  body : ResponseBody
}.

Definition json (b : ResponseBody) : Response := mkResponse 200 b.

(** *** Request validation *)

(** Modelled from the spec: the express-validator chains ([isArray],
    [notEmpty], [isIn]) are not part of the sources; create requires a
    non-empty [items], a non-empty [deliveryAddress] and a non-empty
    [paymentMethod], update-status requires one of the six enumerated
    values.  Each failed chain reports its [withMessage] text. *)
Definition isArray_min1 (l : list (option Item)) : bool :=
  match l with [] => false | _ :: _ => true end.

Definition notEmpty_address (a : option Address) : bool :=
  match a with
  | Some (AddressText s) => negb (String.eqb s "")
  | Some (AddressObject _ _) => true
  | None => false
  end.

Definition notEmpty (a : option string) : bool := truthy_text a.

Definition isIn (l : list string) (v : option string) : bool :=
  match v with
  | Some s => includes l s
  | None => false
  end.

Definition check (ok : bool) (message : string) : list string :=
  if ok then [] else [message].

Definition validate_create (b : CreateBody) : list string :=
  check (isArray_min1 (body_items b)) "At least one item is required"
  ++ check (notEmpty_address (body_deliveryAddress b))
       "Delivery address is required"
  ++ check (notEmpty (body_paymentMethod b)) "Payment method is required".

Definition order_statuses : list string :=
  ["pending"; "confirmed"; "preparing"; "out_for_delivery"; "delivered";
   "cancelled"].

Definition validate_status (v : option string) : list string :=
  check (isIn order_statuses v) "Invalid order status".

Definition isEmpty (errors : list string) : bool :=
  match errors with [] => true | _ :: _ => false end.

(** *** The operations of the router *)

(** The operations that change a stored order. *)
Inductive Mutation : Type :=
| UpdateStatus (params_id : string) (body_status : option string)
| Assign (params_id : string) (user : option User)
| AcceptRestaurant (params_id : string).

(** A request to the router. *)
Inductive Request : Type :=
| ListOrders
| CreateOrder (req : CreateRequest)
| GetOrder (params_id : string)
| Mutate (op : Mutation)
| ListAvailable
| Events (res : Res)
| EventsClose (rid : nat).

(** ** Sample data *)

Module Sample.

(** Stand-ins for the runtime's StringToNumber, Number::toString off the
    integers and [JSON.stringify]; no sample item carries a numeric
    string and no sample counter leaves the integers. *)
Definition to_number (_ : string) : float := nan.
Definition to_string (_ : float) : string := "NaN".
Definition stringify (o : Order) : string := "{id:" ++ id o ++ "}".

Definition asha : User := mkUser (Some "u1") None (Some "Asha") None.
Definition ravi : User := mkUser None (Some "d7") (Some "Ravi") None.

Definition pizzas : Item := mkItem (Some "Pizza") (JNumber 500) (JNumber 2).
Definition no_quantity : Item := mkItem (Some "Thali") (JNumber 400) JUndefined.
Definition zero_quantity : Item := mkItem (Some "Feast") (JNumber 1000) (JNumber 0).

Definition body_of (l : list (option Item)) : CreateBody :=
  mkCreateBody l (Some (AddressObject (Some "1 Main St") (Some "Pune")))
    (Some "cash") None None None None None None.

(** A request whose items are all objects. *)
Definition request_of (l : list Item) : CreateRequest :=
  mkCreateRequest (Some asha) (body_of (map Some l)) "2024-01-01T00:00:00.000Z".

(** A request with [items: [{...}, null]]. *)
Definition null_item_request : CreateRequest :=
  mkCreateRequest (Some asha) (body_of [Some pizzas; None])
    "2024-01-01T00:00:00.000Z".

(** The order [POST /] builds from [request_of [pizzas]] in the initial
    state. *)
Definition order : Order :=
  {| id := "ORD-1010";
     userId := Some "u1";
     restaurantId := None;
     customerName := "Asha";
     customerPhone := "N/A";
     items := [Some pizzas];
     deliveryAddress := Some (AddressObject (Some "1 Main St") (Some "Pune"));
     deliveryInstructions := "";
     paymentMethod := Some "cash";
     createdAt := "2024-01-01T00:00:00.000Z";
     status := "pending";
     payoutAmount := 100%float;
     restaurantName := "Restaurant";
     pickupAddress := "Restaurant Address";
     dropAddress := "1 Main St, Pune";
     paymentType := "COD";
     driver := None |}.

Definition open_client : Res := mkRes 1 true [].
Definition late_client : Res := mkRes 3 true [].

(** The state after that order was created, with the order in a given
    status and given clients. *)
Definition state_of (s : string) (clients : list Res) : State :=
  mkState [("ORD-1010", set_status s order)] 1011%float clients.

Definition placed : State := state_of "pending" [].
Definition delivered : State := state_of "delivered" [].

(** Three creations among other requests. *)
Definition requests : list Request :=
  [CreateOrder (request_of [pizzas]);
   GetOrder "ORD-1010";
   CreateOrder (request_of []);
   CreateOrder (request_of [no_quantity]);
   Mutate (Assign "ORD-1010" (Some ravi));
   Events open_client;
   CreateOrder (request_of [zero_quantity])].

(** Two creations around one that fails on a [null] item. *)
Definition requests_with_null : list Request :=
  [CreateOrder (request_of [pizzas]);
   CreateOrder null_item_request;
   CreateOrder (request_of []);
   CreateOrder (request_of [no_quantity])].

End Sample.

(** ** The category carousel (src/components/FoodCategorySectionn.js)

    The carousel state is the [index] of the category shown in the
    middle; the arrows update it and the slider is computed from it.  The
    indices are small whole numbers, on which the arithmetic of doubles
    is exact: they are integers here, and JS [%], which takes the sign of
    the dividend, is [Z.rem]. *)

Module Carousel.

Record Category := mkCategory { name : string; image : string }.

Definition categories : list Category :=
  [ mkCategory "North Indian"
      "https://res.cloudinary.com/dlurlrbou/image/upload/v1753077119/7525c28b815e93b8f4ad4a3bb889090e_vtd6mi.jpg";
    mkCategory "Italian"
      "https://res.cloudinary.com/dlurlrbou/image/upload/v1753335211/food1_z8vt3v.jpg";
    mkCategory "South Indian"
      "https://res.cloudinary.com/dlurlrbou/image/upload/v1753335221/food10_n3pfgy.jpg";
    mkCategory "Chinese"
      "https://res.cloudinary.com/dlurlrbou/image/upload/v1753335213/food3_islz2v.jpg";
    mkCategory "Snacks"
      "https://res.cloudinary.com/dlurlrbou/image/upload/v1753335220/food5_vb4td0.jpg?w=400&h=300&fit=crop&crop=center" ].

(** [categories.length] *)
Definition categories_length : Z := Z.of_nat (List.length categories).

(** [useState(2)] *)
Definition initial_index : Z := 2.

(** The updater [nextSlide] hands to [setIndex]. *)
Definition nextSlide (prev : Z) : Z := Z.rem (prev + 1) categories_length.

(** The updater [prevSlide] hands to [setIndex]. *)
Definition prevSlide (prev : Z) : Z :=
  Z.rem (prev - 1 + categories_length) categories_length.

Definition visibleItems (index : Z) : list Z :=
  [ Z.rem (index - 2 + categories_length) categories_length;
    Z.rem (index - 1 + categories_length) categories_length;
    index;
    Z.rem (index + 1) categories_length;
    Z.rem (index + 2) categories_length ].

(** A click on one of the two arrows. *)
Inductive Arrow := Left | Right.

Definition click (a : Arrow) (index : Z) : Z :=
  match a with
  | Left => prevSlide index
  | Right => nextSlide index
  end.

(** The index after a sequence of clicks. *)
Definition clicks (l : list Arrow) (index : Z) : Z :=
  fold_left (fun i a => click a i) l index.

(** [categories[i]]: [undefined] off the array. *)
Definition category_at (i : Z) : option Category :=
  if (i <? 0)%Z then None else nth_error categories (Z.to_nat i).

(** One [div] of the slider: its key, its class, and the source, the
    alternative text and the caption of its picture. *)
Record Card := mkCard {
  key : Z;
  className : string;
  src : string;
  alt : string;
  caption : string
}.

(** The element mapped over [visibleItems]; reading [image] off an
    undefined category throws, which is [None]. *)
Definition card (index i : Z) : option Card :=
  match category_at i with
  | Some c =>
      Some (mkCard i ("category " ++ (if (i =? index)%Z then "main" else "side"))
              (image c) (name c) (name c))
  | None => None
  end.

(** [visibleItems.map(...)]: the cards in order, none if one throws. *)
Fixpoint cards_of (index : Z) (l : list Z) : option (list Card) :=
  match l with
  | [] => Some []
  | i :: rest =>
      match card index i, cards_of index rest with
      | Some c, Some cs => Some (c :: cs)
      | _, _ => None
      end
  end.

Definition slider (index : Z) : option (list Card) :=
  cards_of index (visibleItems index).

End Carousel.

(** ** The router *)

Definition nl : string := String (ascii_of_nat 10) EmptyString.

(** [inMemoryOrders.get(k)] *)
Definition orders_get (k : string) : M (option Order) :=
  fun st => (Normal (Map_get k (inMemoryOrders st)), st).

(** [inMemoryOrders.set(k, order)] *)
Definition orders_set (k : string) (order : Order) : M unit :=
  fun st =>
    (Normal tt,
     mkState (Map_set k order (inMemoryOrders st)) (nextOrderNumericId st)
       (sseClients st)).

(** An assignment to a property of the object that [inMemoryOrders.get(k)]
    returned: the object stored under [k] is the one that changes. *)
Definition orders_mutate (k : string) (order' : Order) : M unit :=
  orders_set k order'.

(** [res.write(data)] on an event-stream response. *)
Definition res_write (res : Res) (data : string) : Completion Res :=
  if res_writable res
  then Normal (mkRes (res_id res) true (res_written res ++ [data]))
  else Throw "write failed".

(** [for (const res of clients) { body }]: the clients after the loop; a
    throwing iteration abandons the loop. *)
Fixpoint for_of (clients : list Res) (body : Res -> Completion Res)
  : Completion unit * list Res :=
  match clients with
  | [] => (Normal tt, [])
  | res :: rest =>
      match body res with
      | Normal res' =>
          let (c, rest') := for_of rest body in (c, res' :: rest')
      | Throw e => (Throw e, res :: rest)
      end
  end.

(** [try { res.write(data); } catch (_) {}] *)
Definition try_write (data : string) (res : Res) : Completion Res :=
  match res_write res data with
  | Normal res' => Normal res'
  | Throw _ => Normal res
  end.

(** [array.reduce(callback, initial)]: the callbacks run in order; one
    that throws abandons the reduction. *)
Fixpoint reduce {A B : Type} (callback : B -> A -> Completion B)
    (l : list A) (initial : B) : Completion B :=
  match l with
  | [] => Normal initial
  | a :: rest =>
      match callback initial a with
      | Normal acc => reduce callback rest acc
      | Throw e => Throw e
      end
  end.

(** An expression that may throw, evaluated in a handler. *)
Definition eval {A : Type} (c : Completion A) : M A := fun st => (c, st).

Section Router.

(** The runtime's StringToNumber, its Number::toString off the integers,
    and [JSON.stringify] on an order. *)
Variable StringToNumber : string -> float.
Variable Number_toString_other : float -> string.
Variable JSON_stringify : Order -> string.

(** [const generateOrderId = () => `ORD-${nextOrderNumericId++}`] *)
Definition generateOrderId : M string :=
  fun st =>
    let n := nextOrderNumericId st in
    (Normal ("ORD-" ++ Number_toString Number_toString_other n),
     mkState (inMemoryOrders st) (n + 1)%float (sseClients st)).

Definition frame (type : string) (payload : Order) : string :=
  "event: " ++ type ++ nl ++ "data: " ++ JSON_stringify payload ++ nl ++ nl.

Definition broadcastOrderEvent (type : string) (payload : Order) : M unit :=
  fun st =>
    let data := frame type payload in
    let (c, clients) := for_of (sseClients st) (try_write data) in
    (c, mkState (inMemoryOrders st) (nextOrderNumericId st) clients).

(** [GET /events]: the initial comment, then registration.  A response
    object serves one request, so the handler never meets a response
    that is already registered. *)
Definition events (res : Res) : M unit :=
  fun st =>
    match res_write res (": connected" ++ nl ++ nl) with
    | Normal res' =>
        (Normal tt,
         mkState (inMemoryOrders st) (nextOrderNumericId st)
           (Set_add res' (sseClients st)))
    | Throw e => (Throw e, st)
    end.

(** [req.on('close', ...)]: [sseClients.delete(res)] *)
Definition events_close (rid : nat) : M unit :=
  fun st =>
    (Normal tt,
     mkState (inMemoryOrders st) (nextOrderNumericId st)
       (Set_delete rid (sseClients st))).

Definition server_error : Response :=
  mkResponse 500 (BodyError "Server error").

(** The frame of every handler:
    [try { m } catch (error) { res.status(500).json({ error: 'Server error' }) }] *)
Definition catch_500 (m : M Response) : State -> Response * State :=
  fun st =>
    match m st with
    | (Normal r, st') => (r, st')
    | (Throw _, st') => (server_error, st')
    end.

(** [GET /] *)
Definition list_orders : State -> Response * State :=
  catch_500
    (fun st => (Normal (json (BodyOrders (Map_values (inMemoryOrders st)))), st)).

(** [(sum, it) => sum + (Number(it.price) * Number(it.quantity || 1))]:
    reading [price] off [null] throws a TypeError. *)
Definition add_item (sum : float) (it : option Item) : Completion float :=
  match it with
  | Some it =>
      Normal (sum + Number StringToNumber (price it)
                    * Number StringToNumber (or_else (quantity it) (JNumber 1)))%float
  | None => Throw "TypeError"
  end.

(** [items.reduce((sum, it) => ..., 0)] *)
Definition items_total (l : list (option Item)) : Completion float :=
  reduce add_item l 0%float.

(** [Math.max(30, Math.round(total * 0.1))] *)
Definition payout (l : list (option Item)) : Completion float :=
  match items_total l with
  | Normal total => Normal (Math_max thirty (Math_round (total * tenth)%float))
  | Throw e => Throw e
  end.

(** [[a, b].filter(Boolean).join(', ')] *)
Definition join_truthy (l : list (option string)) : string :=
  String.concat ", "
    (map (fun a => match a with Some s => s | None => "" end)
       (filter truthy_text l)).

Definition drop_address (a : option Address) : string :=
  match a with
  | Some (AddressText s) => s
  | Some (AddressObject street city) => join_truthy [street; city]
  | None => join_truthy [None; None]
  end.

Definition user_field (f : User -> option string) (u : option User)
  : option string :=
  match u with Some x => f x | None => None end.

(** The object literal of [POST /], given the generated identifier.  Of
    its property values only [payoutAmount] can throw; those evaluated
    before it have no effect. *)
Definition new_order (req : CreateRequest) (i : string) : Completion Order :=
  let b := create_body req in
  let u := create_user req in
  match payout (body_items b) with
  | Normal amount =>
      Normal
        {| id := i;
           userId :=
             or_text (or_text (user_field user__id u) (user_field user_id u)) None;
           restaurantId := or_text (body_restaurantId b) None;
           customerName :=
             or_default (or_text (body_customerName b) (user_field user_name u))
               "Customer";
           customerPhone :=
             or_default (or_text (body_customerPhone b) (user_field user_phone u))
               "N/A";
           items := body_items b;
           deliveryAddress := body_deliveryAddress b;
           deliveryInstructions := or_default (body_deliveryInstructions b) "";
           paymentMethod := body_paymentMethod b;
           createdAt := create_now req;
           status := "pending";
           payoutAmount := amount;
           restaurantName := or_default (body_restaurantName b) "Restaurant";
           pickupAddress := or_default (body_pickupAddress b) "Restaurant Address";
           dropAddress := drop_address (body_deliveryAddress b);
           paymentType :=
             match body_paymentMethod b with
             | Some "cash" => "COD"
             | _ => "Paid Online"
             end;
           driver := None |}
  | Throw e => Throw e
  end.

(** [POST /] *)
Definition create_order (req : CreateRequest)
  : State -> Response * State :=
  catch_500
    (let errors := validate_create (create_body req) in
     if negb (isEmpty errors)
     then ret (mkResponse 400 (BodyErrors errors))
     else
       i <- generateOrderId ;;
       newOrder <- eval (new_order req i) ;;
       orders_set (id newOrder) newOrder ;;;
       broadcastOrderEvent "order_created" newOrder ;;;
       ret (mkResponse 201 (BodyOrder newOrder))).

Definition not_found : Response :=
  mkResponse 404 (BodyError "Order not found").

(** [GET /:id] *)
Definition get_order (params_id : string) : State -> Response * State :=
  catch_500
    (o <- orders_get params_id ;;
     match o with
     | None => ret not_found
     | Some order => ret (json (BodyOrder order))
     end).

(** [PUT /:id/status].  A body without [status] never validates, so the
    value assigned is always the text the body carries. *)
Definition update_status (params_id : string) (body_status : option string)
  : State -> Response * State :=
  catch_500
    (let errors := validate_status body_status in
     match errors, body_status with
     | [], Some s =>
         o <- orders_get params_id ;;
         match o with
         | None => ret not_found
         | Some order =>
             let order := set_status s order in
             orders_mutate params_id order ;;;
             orders_set (id order) order ;;;
             broadcastOrderEvent "order_updated" order ;;;
             ret (json (BodyOrder order))
         end
     | _, _ => ret (mkResponse 400 (BodyErrors errors))
     end).

Definition available_statuses : list string :=
  ["pending"; "confirmed"; "preparing"].

(** [GET /available/list] *)
Definition list_available : State -> Response * State :=
  catch_500
    (fun st =>
       let available :=
         filter (fun o => includes available_statuses (status o))
           (Map_values (inMemoryOrders st)) in
       (Normal (json (BodyOrders available)), st)).

(** [{ id: req.user?._id || req.user?.id, name: req.user?.name || 'Driver' }] *)
Definition driver_of (u : option User) : Driver :=
  {| driver_id := or_text (user_field user__id u) (user_field user_id u);
     driver_name := or_default (user_field user_name u) "Driver" |}.

(** [POST /:id/assign] *)
Definition assign (params_id : string) (user : option User)
  : State -> Response * State :=
  catch_500
    (o <- orders_get params_id ;;
     match o with
     | None => ret not_found
     | Some order =>
         if negb (includes available_statuses (status order))
         then ret (mkResponse 400
                     (BodyError "Order is not available for assignment"))
         else
           let order := set_status "out_for_delivery" order in
           orders_mutate params_id order ;;;
           let order := set_driver (driver_of user) order in
           orders_mutate params_id order ;;;
           orders_set (id order) order ;;;
           broadcastOrderEvent "order_assigned" order ;;;
           ret (json (BodyOrder order))
     end).

(** [POST /:id/accept-restaurant] *)
Definition accept_restaurant (params_id : string)
  : State -> Response * State :=
  catch_500
    (o <- orders_get params_id ;;
     match o with
     | None => ret not_found
     | Some order =>
         if negb (includes ["pending"] (status order))
         then ret (mkResponse 400 (BodyError "Order cannot be accepted"))
         else
           let order := set_status "confirmed" order in
           orders_mutate params_id order ;;;
           orders_set (id order) order ;;;
           broadcastOrderEvent "order_confirmed" order ;;;
           ret (json (BodyOrder order))
     end).

(** *** Runs of the mutating operations on stored orders *)

Definition mutate (op : Mutation) : State -> Response * State :=
  match op with
  | UpdateStatus i v => update_status i v
  | Assign i u => assign i u
  | AcceptRestaurant i => accept_restaurant i
  end.

Fixpoint run (ops : list Mutation) (st : State) : State :=
  match ops with
  | [] => st
  | op :: ops' => run ops' (snd (mutate op st))
  end.

(** *** The router as a whole *)

(** The JSON response of a request; the event stream has none. *)
Definition handle (r : Request) (st : State) : option Response * State :=
  match r with
  | ListOrders => let (x, st') := list_orders st in (Some x, st')
  | CreateOrder req => let (x, st') := create_order req st in (Some x, st')
  | GetOrder i => let (x, st') := get_order i st in (Some x, st')
  | Mutate op => let (x, st') := mutate op st in (Some x, st')
  | ListAvailable => let (x, st') := list_available st in (Some x, st')
  | Events res => (None, snd (events res st))
  | EventsClose rid => (None, snd (events_close rid st))
  end.

(** The requests of a process, handled one after the other. *)
Fixpoint serve (reqs : list Request) (st : State)
  : list (option Response) * State :=
  match reqs with
  | [] => ([], st)
  | r :: reqs' =>
      let (x, st') := handle r st in
      let (xs, st'') := serve reqs' st' in
      (x :: xs, st'')
  end.

(** ** Vocabulary of the properties *)

(** The lifecycle [pending -> confirmed -> preparing -> out_for_delivery
    -> delivered]; [cancelled] is off the line. *)
Definition lifecycle_rank (s : string) : option nat :=
  if String.eqb s "pending" then Some 0
  else if String.eqb s "confirmed" then Some 1
  else if String.eqb s "preparing" then Some 2
  else if String.eqb s "out_for_delivery" then Some 3
  else if String.eqb s "delivered" then Some 4
  else None.

(** A status that stays or moves on along the lifecycle: no change, or a
    move from a stage of the line to a later one. *)
Definition advances (old new : string) : bool :=
  String.eqb old new
  || match lifecycle_rank old, lifecycle_rank new with
     | Some a, Some b => Nat.ltb a b
     | _, _ => false
     end.

(** A status change that does not regress: no change, a move to
    [cancelled], or a move to a later (or the same) stage. *)
Definition moves_forward (old new : string) : bool :=
  String.eqb old new
  || String.eqb new "cancelled"
  || match lifecycle_rank old, lifecycle_rank new with
     | Some a, Some b => Nat.leb a b
     | _, _ => false
     end.

(** Every order is stored under its own identifier. *)
Definition keys_match (m : Map) : Prop :=
  Forall (fun kv => fst kv = id (snd kv)) m.

(** All of an order but its status and its driver. *)
Definition fixed_fields (o : Order) :=
  (id o, userId o, restaurantId o, customerName o, customerPhone o, items o,
   deliveryAddress o, deliveryInstructions o, paymentMethod o, createdAt o,
   payoutAmount o, restaurantName o, pickupAddress o, dropAddress o,
   paymentType o).

(** Mutations other than the generic update-status. *)
Definition guarded (op : Mutation) : bool :=
  match op with
  | UpdateStatus _ _ => false
  | Assign _ _ | AcceptRestaurant _ => true
  end.

Definition is_assign (op : Mutation) : bool :=
  match op with Assign _ _ => true | _ => false end.

(** How a stored order [o] may look after one mutation. *)
Definition follows (op : Mutation) (o o' : Order) : Prop :=
  fixed_fields o' = fixed_fields o
  /\ (guarded op = true -> advances (status o) (status o') = true)
  /\ (is_assign op = false -> driver o' = driver o).

(** A client after a delivery attempt. *)
Definition delivered (data : string) (res : Res) : Res :=
  if res_writable res
  then mkRes (res_id res) true (res_written res ++ [data])
  else res.

Definition with_clients (clients : list Res) (st : State) : State :=
  mkState (inMemoryOrders st) (nextOrderNumericId st) clients.

(** The identifier with numeric suffix [n]. *)
Definition order_id (n : Z) : string := "ORD-" ++ decimal n.

(** Doubles count the integers exactly up to [2^53]. *)
Definition two_53 : Z := 2 ^ 53.

(** [shl v k] is [v * 2^k], as the mantissa shifts of the float
    specification build it. *)
Definition shl (v : positive) (k : nat) : positive := Nat.iter k xO v.

(** The identifiers of the orders created, read off the 201 responses. *)
Definition created_id (x : option Response) : option string :=
  match x with
  | Some r =>
      match body r with
      | BodyOrder o => if Nat.eqb (statusCode r) 201 then Some (id o) else None
      | _ => None
      end
  | None => None
  end.

Fixpoint created_ids (rs : list (option Response)) : list string :=
  match rs with
  | [] => []
  | x :: rs' =>
      match created_id x with
      | Some i => i :: created_ids rs'
      | None => created_ids rs'
      end
  end.



(** No element of the array is [null]. *)
Definition is_object (it : option Item) : bool :=
  match it with Some _ => true | None => false end.

Definition all_objects (l : list (option Item)) : bool := forallb is_object l.

Definition sum (l : list float) : float := fold_left PrimFloat.add l 0%float.







(** *** Vocabulary of the further properties *)

(** The identifier a mutation addresses. *)
Definition target (op : Mutation) : string :=
  match op with
  | UpdateStatus i _ | Assign i _ | AcceptRestaurant i => i
  end.

(** What a mutation makes of the stored order it addresses, when it
    accepts it. *)
Definition applied (op : Mutation) (o : Order) : option Order :=
  match op with
  | UpdateStatus _ (Some s) =>
      if includes order_statuses s then Some (set_status s o) else None
  | UpdateStatus _ None => None
  | Assign _ u =>
      if includes available_statuses (status o)
      then Some (set_driver (driver_of u) (set_status "out_for_delivery" o))
      else None
  | AcceptRestaurant _ =>
      if includes ["pending"] (status o)
      then Some (set_status "confirmed" o)
      else None
  end.

(** The type of the event a mutation broadcasts. *)
Definition event_type (op : Mutation) : string :=
  match op with
  | UpdateStatus _ _ => "order_updated"
  | Assign _ _ => "order_assigned"
  | AcceptRestaurant _ => "order_confirmed"
  end.

(** The keys of the registry, in insertion order. *)
Definition Map_keys (m : Map) : list string := map fst m.

(** The orders [GET /available/list] answers with. *)
Definition available_orders (st : State) : list Order :=
  filter (fun o => includes available_statuses (status o))
    (Map_values (inMemoryOrders st)).

(** The frames a request makes the router broadcast, read off the
    request and its response. *)
Definition published (r : Request) (x : option Response) : list string :=
  match r, x with
  | CreateOrder _, Some (mkResponse code (BodyOrder o)) =>
      if Nat.eqb code 201 then [frame "order_created" o] else []
  | Mutate op, Some (mkResponse code (BodyOrder o)) =>
      if Nat.eqb code 200 then [frame (event_type op) o] else []
  | _, _ => []
  end.

Fixpoint published_all (reqs : list Request) (xs : list (option Response))
  : list string :=
  match reqs, xs with
  | r :: reqs', x :: xs' => (published r x ++ published_all reqs' xs')%list
  | _, _ => []
  end.

(** No request of the list closes the event stream [rid], and none is
    served on that response object again (a response object serves one
    request). *)
Definition stays_open (rid : nat) (reqs : list Request) : bool :=
  forallb
    (fun r =>
       match r with
       | EventsClose i => negb (Nat.eqb i rid)
       | Events res => negb (Nat.eqb (res_id res) rid)
       | _ => true
       end)
    reqs.

(** [k] is the identifier of a number below [n]. *)
Definition issued_below (n : Z) (k : string) : Prop :=
  exists j, (0 <= j < n)%Z /\ k = order_id j.

(** The order [o] stored under [k] is, but for its status and its driver,
    the order a valid creation request of [hist] built under [k]. *)
Definition stems_from (hist : list Request) (k : string) (o : Order) : Prop :=
  exists req o0,
    In (CreateOrder req) hist
    /\ validate_create (create_body req) = []
    /\ new_order req k = Normal o0
    /\ fixed_fields o = fixed_fields o0.

(** A response that is the 500 of a caught exception. *)
Definition server_failed (x : option Response) : bool :=
  match x with
  | Some r => Nat.eqb (statusCode r) 500
  | None => false
  end.

(** ** The registry *)

Lemma Map_get_set_same k v m : Map_get k (Map_set k v m) = Some v.
Proof.
  induction m as [|[k' v'] m IH]; simpl.
  - now rewrite String.eqb_refl.
  - destruct (String.eqb k k') eqn:E; simpl.
    + now rewrite String.eqb_refl.
    + now rewrite E.
Qed.

Lemma Map_get_set_other k k' v m :
  k <> k' -> Map_get k' (Map_set k v m) = Map_get k' m.
Proof.
  intros Hk. induction m as [|[k0 v0] m IH]; simpl.
  - apply String.eqb_neq in Hk. now rewrite String.eqb_sym, Hk.
  - destruct (String.eqb k k0) eqn:E; simpl.
    + apply String.eqb_eq in E. subst k0.
      destruct (String.eqb k' k) eqn:E'; [|reflexivity].
      apply String.eqb_eq in E'. congruence.
    + now rewrite IH.
Qed.

Lemma Map_get_set k k' v m :
  Map_get k' (Map_set k v m) = if String.eqb k k' then Some v else Map_get k' m.
Proof.
  destruct (String.eqb k k') eqn:E.
  - apply String.eqb_eq in E. subst. apply Map_get_set_same.
  - apply String.eqb_neq in E. now apply Map_get_set_other.
Qed.

Lemma keys_match_set k v m :
  keys_match m -> k = id v -> keys_match (Map_set k v m).
Proof.
  unfold keys_match. intros Hm Hk.
  induction Hm as [|[k' v'] m Hkv Hm IH]; simpl.
  - constructor; [assumption | constructor].
  - destruct (String.eqb k k'); constructor; assumption.
Qed.

Lemma keys_match_get k o m :
  keys_match m -> Map_get k m = Some o -> id o = k.
Proof.
  unfold keys_match. intros Hm.
  induction Hm as [|[k' v'] m Hkv Hm IH]; simpl; [discriminate|].
  destruct (String.eqb k k') eqn:E; [|exact IH].
  apply String.eqb_eq in E. intros [= <-]. simpl in Hkv. congruence.
Qed.

(** ** The broadcast loop *)

Lemma for_of_try_write data clients :
  for_of clients (try_write data) = (Normal tt, map (delivered data) clients).
Proof.
  induction clients as [|res rest IH]; simpl; [reflexivity|].
  unfold try_write at 1, res_write, delivered at 1.
  destruct (res_writable res); now rewrite IH.
Qed.

Lemma broadcast_eq type payload st :
  broadcastOrderEvent type payload st
  = (Normal tt, with_clients (map (delivered (frame type payload)) (sseClients st)) st).
Proof.
  unfold broadcastOrderEvent. now rewrite for_of_try_write.
Qed.

(** *** What each handler returns *)

Lemma create_order_invalid req st :
  validate_create (create_body req) <> [] ->
  create_order req st
  = (mkResponse 400 (BodyErrors (validate_create (create_body req))), st).
Proof.
  intros H. unfold create_order, catch_500.
  destruct (validate_create (create_body req)); [congruence|reflexivity].
Qed.


Lemma reduce_null l :
  forall acc, all_objects l = false -> exists e, reduce add_item l acc = Throw e.
Proof.
  induction l as [|[it|] l IH]; simpl; intros acc H.
  - discriminate H.
  - apply IH, H.
  - eauto.
Qed.

Lemma reduce_objects l :
  forall acc, all_objects l = true -> exists x, reduce add_item l acc = Normal x.
Proof.
  induction l as [|[it|] l IH]; simpl; intros acc H.
  - eauto.
  - apply IH, H.
  - discriminate H.
Qed.

(** The payout is computed exactly when no item is [null]. *)
Lemma payout_cases l :
  (all_objects l = true /\ exists x, payout l = Normal x)
  \/ (all_objects l = false /\ exists e, payout l = Throw e).
Proof.
  unfold payout, items_total. destruct (all_objects l) eqn:H.
  - left. destruct (reduce_objects l 0%float H) as (x & ->). eauto.
  - right. destruct (reduce_null l 0%float H) as (e & ->). eauto.
Qed.

Lemma new_order_Normal req i o :
  new_order req i = Normal o ->
  id o = i
  /\ status o = "pending"
  /\ driver o = None
  /\ items o = body_items (create_body req)
  /\ payout (items o) = Normal (payoutAmount o).
Proof.
  unfold new_order. destruct (payout (body_items (create_body req))) eqn:E;
    [|discriminate].
  intros [= <-]. simpl. auto.
Qed.

Lemma new_order_id req i o : new_order req i = Normal o -> id o = i.
Proof. intros H. now apply new_order_Normal in H. Qed.

(** The literal is built exactly when no item is [null]. *)
Lemma new_order_cases req i :
  (all_objects (body_items (create_body req)) = true
   /\ exists o, new_order req i = Normal o)
  \/ (all_objects (body_items (create_body req)) = false
      /\ exists e, new_order req i = Throw e).
Proof.
  unfold new_order.
  destruct (payout_cases (body_items (create_body req)))
    as [(H & x & ->)|(H & e & ->)]; eauto.
Qed.

Lemma create_order_valid req st o :
  validate_create (create_body req) = [] ->
  new_order req
    ("ORD-" ++ Number_toString Number_toString_other (nextOrderNumericId st))
  = Normal o ->
  create_order req st
  = (mkResponse 201 (BodyOrder o),
     mkState (Map_set (id o) o (inMemoryOrders st))
       (nextOrderNumericId st + 1)%float
       (map (delivered (frame "order_created" o)) (sseClients st))).
Proof.
  intros H Ho. unfold create_order, catch_500. rewrite H.
  cbn [isEmpty negb]. unfold bind, generateOrderId, eval. rewrite Ho.
  unfold orders_set, ret. rewrite broadcast_eq. reflexivity.
Qed.

(** A [null] item: the identifier is drawn, then the literal throws. *)
Lemma create_order_throws req st e :
  validate_create (create_body req) = [] ->
  new_order req
    ("ORD-" ++ Number_toString Number_toString_other (nextOrderNumericId st))
  = Throw e ->
  create_order req st
  = (server_error,
     mkState (inMemoryOrders st) (nextOrderNumericId st + 1)%float
       (sseClients st)).
Proof.
  intros H Ho. unfold create_order, catch_500. rewrite H.
  cbn [isEmpty negb]. unfold bind, generateOrderId, eval. now rewrite Ho.
Qed.

(** The three outcomes of [POST /]. *)
Lemma create_order_cases req st :
  let i := "ORD-" ++ Number_toString Number_toString_other (nextOrderNumericId st) in
  (validate_create (create_body req) <> []
   /\ create_order req st
      = (mkResponse 400 (BodyErrors (validate_create (create_body req))), st))
  \/ (validate_create (create_body req) = []
      /\ all_objects (body_items (create_body req)) = false
      /\ create_order req st
         = (server_error,
            mkState (inMemoryOrders st) (nextOrderNumericId st + 1)%float
              (sseClients st)))
  \/ (validate_create (create_body req) = []
      /\ all_objects (body_items (create_body req)) = true
      /\ exists o,
           new_order req i = Normal o
           /\ create_order req st
              = (mkResponse 201 (BodyOrder o),
                 mkState (Map_set (id o) o (inMemoryOrders st))
                   (nextOrderNumericId st + 1)%float
                   (map (delivered (frame "order_created" o)) (sseClients st)))).
Proof.
  intros i. destruct (validate_create (create_body req)) eqn:Hv.
  - right. destruct (new_order_cases req i) as [(H & o & Ho)|(H & e & Ho)].
    + right. split; [reflexivity|]. split; [assumption|]. exists o.
      split; [assumption|]. now apply create_order_valid.
    + left. split; [reflexivity|]. split; [assumption|].
      now apply create_order_throws with e.
  - left. split; [discriminate|].
    rewrite <- Hv. apply create_order_invalid. rewrite Hv. discriminate.
Qed.


(** ** Doubles holding integers

    The float specification rounds a mantissa by shifting it; on the
    integers up to [2^53] nothing is lost, so the counter's additions are
    exact. *)

Lemma shl_S v k : shl v (S k) = xO (shl v k).
Proof. reflexivity. Qed.

Lemma shl_add v j k : shl (shl v j) k = shl v (j + k).
Proof.
  unfold shl. rewrite Nat.add_comm. symmetry. apply Nat.iter_add.
Qed.

Lemma Pos_iter_xO v p : Pos.iter xO v p = shl v (Pos.to_nat p).
Proof. apply Pos2Nat.inj_iter. Qed.

Lemma shl_Z v k : Zpos (shl v k) = (Zpos v * 2 ^ Z.of_nat k)%Z.
Proof.
  induction k as [|k IH].
  - simpl. lia.
  - rewrite shl_S, Pos2Z.inj_xO, IH, Nat2Z.inj_succ, Z.pow_succ_r by lia. lia.
Qed.

Lemma shl_plus a b k : (shl a k + shl b k)%positive = shl (a + b) k.
Proof.
  induction k as [|k IH]; [reflexivity|].
  rewrite !shl_S. simpl. now rewrite IH.
Qed.

Lemma digits2_shl v k :
  Zpos (digits2_pos (shl v k)) = (Zpos (digits2_pos v) + Z.of_nat k)%Z.
Proof.
  induction k as [|k IH].
  - simpl. lia.
  - rewrite shl_S. cbn [digits2_pos]. rewrite Pos2Z.inj_succ, IH. lia.
Qed.

Lemma digits2_size p : digits2_pos p = Pos.size p.
Proof. induction p; simpl; congruence. Qed.

Lemma digits2_bound p k :
  (Zpos p < 2 ^ k)%Z -> (0 <= k)%Z -> (Zpos (digits2_pos p) <= k)%Z.
Proof.
  intros Hp Hk. rewrite digits2_size.
  pose proof (Pos.size_le p) as H.
  assert (H' : (2 ^ Zpos (Pos.size p) <= 2 * Zpos p)%Z).
  { rewrite <- Pos2Z.inj_pow. change (2 * Zpos p)%Z with (Zpos p~0). lia. }
  assert (Hlt : (2 ^ Zpos (Pos.size p) < 2 ^ (k + 1))%Z).
  { rewrite Z.pow_add_r by lia. lia. }
  apply Z.pow_lt_mono_r_iff in Hlt; lia.
Qed.

(** Shifting right what was shifted left loses nothing. *)
Lemma iter_pos_nat {A} (f : A -> A) p :
  forall x, iter_pos f p x = Nat.iter (Pos.to_nat p) f x.
Proof.
  induction p as [p IH|p IH|]; intros x; cbn [iter_pos].
  - rewrite !IH, Pos2Nat.inj_xI.
    replace (S (2 * Pos.to_nat p)) with (S (Pos.to_nat p + Pos.to_nat p))
      by lia.
    now rewrite Nat.iter_succ_r, Nat.iter_add.
  - rewrite !IH, Pos2Nat.inj_xO.
    replace (2 * Pos.to_nat p) with (Pos.to_nat p + Pos.to_nat p) by lia.
    now rewrite Nat.iter_add.
  - reflexivity.
Qed.

Lemma shr_shl v j k :
  Nat.iter k shr_1 (Build_shr_record (Zpos (shl v (j + k))) false false)
  = Build_shr_record (Zpos (shl v j)) false false.
Proof.
  induction k as [|k IH].
  - now rewrite Nat.add_0_r.
  - rewrite Nat.iter_succ_r, Nat.add_succ_r, shl_S. simpl. exact IH.
Qed.

Lemma fexp_canonical e :
  (SpecFloat.emin prec emax <= e)%Z -> fexp prec emax (53 + e) = e.
Proof. unfold fexp, SpecFloat.emin, prec, emax. lia. Qed.

Lemma round_aux_canonical s m e :
  Zpos (digits2_pos m) = 53%Z ->
  (SpecFloat.emin prec emax <= e <= emax - prec)%Z ->
  binary_round_aux prec emax s (Zpos m) e loc_Exact = S754_finite s m e.
Proof.
  intros Hd He. unfold binary_round_aux, shr_fexp. cbn [Zdigits2].
  rewrite Hd, fexp_canonical, Z.sub_diag by lia.
  cbn [shr shr_record_of_loc shr_m loc_of_shr_record round_nearest_even Zdigits2].
  rewrite Hd, fexp_canonical, Z.sub_diag by lia.
  cbn [shr shr_record_of_loc shr_m].
  destruct (Z.leb_spec e (emax - prec)); [reflexivity | lia].
Qed.

Lemma round_aux_shift s v j k e :
  Zpos (digits2_pos (shl v j)) = 53%Z ->
  (SpecFloat.emin prec emax <= e + Z.of_nat k <= emax - prec)%Z ->
  binary_round_aux prec emax s (Zpos (shl v (j + k))) e loc_Exact
  = S754_finite s (shl v j) (e + Z.of_nat k).
Proof.
  intros Hd He. destruct k as [|k].
  { rewrite Nat.add_0_r, Z.add_0_r in *. now apply round_aux_canonical. }
  unfold binary_round_aux, shr_fexp. cbn [Zdigits2].
  rewrite <- shl_add, digits2_shl, Hd.
  replace (fexp prec emax (53 + Z.of_nat (S k) + e) - e)%Z
    with (Zpos (Pos.of_succ_nat k)).
  2:{ unfold fexp, SpecFloat.emin, prec, emax in *. lia. }
  cbn [shr shr_record_of_loc]. rewrite iter_pos_nat, SuccNat2Pos.id_succ.
  rewrite shl_add, shr_shl.
  cbn [shr_m loc_of_shr_record round_nearest_even Zdigits2].
  rewrite Hd.
  replace (e + Zpos (Pos.of_succ_nat k))%Z with (e + Z.of_nat (S k))%Z by lia.
  rewrite fexp_canonical, Z.sub_diag by lia.
  cbn [shr shr_record_of_loc shr_m].
  destruct (Z.leb_spec (e + Z.of_nat (S k)) (emax - prec)); [reflexivity | lia].
Qed.

Lemma shl_align_left m e k :
  shl_align m e (e - Z.of_nat k) = (shl m k, (e - Z.of_nat k)%Z).
Proof.
  unfold shl_align. destruct k as [|k].
  - now rewrite Z.sub_0_r, Z.sub_diag.
  - replace (e - Z.of_nat (S k) - e)%Z with (Zneg (Pos.of_succ_nat k)) by lia.
    now rewrite Pos_iter_xO, SuccNat2Pos.id_succ.
Qed.

Lemma shl_align_none m e e' : (e <= e')%Z -> shl_align m e e' = (m, e).
Proof.
  intros H. unfold shl_align.
  destruct (e' - e)%Z eqn:E; try reflexivity. lia.
Qed.

(** Rounding a mantissa [v * 2^j] with [v] of at most 53 bits is exact. *)
Lemma binary_round_exact s v j e :
  let d := Zpos (digits2_pos v) in
  (d <= 53)%Z ->
  (SpecFloat.emin prec emax <= e + Z.of_nat j + d - 53 <= emax - prec)%Z ->
  binary_round prec emax s (shl v j) e
  = S754_finite s (shl v (Z.to_nat (53 - d))) (e + Z.of_nat j + d - 53).
Proof.
  intros d Hd He. unfold binary_round. rewrite digits2_shl. fold d.
  replace (fexp prec emax (d + Z.of_nat j + e))
    with (e + Z.of_nat j + d - 53)%Z.
  2:{ unfold fexp, SpecFloat.emin, prec, emax in *. lia. }
  destruct (Z.le_gt_cases 53 (d + Z.of_nat j)) as [Hge|Hlt].
  - rewrite shl_align_none by lia.
    replace j with (Z.to_nat (53 - d) + Z.to_nat (d + Z.of_nat j - 53)) at 1
      by lia.
    rewrite round_aux_shift.
    + f_equal. lia.
    + rewrite digits2_shl. fold d. lia.
    + lia.
  - replace (e + Z.of_nat j + d - 53)%Z
      with (e - Z.of_nat (Z.to_nat (53 - d - Z.of_nat j)))%Z by lia.
    rewrite shl_align_left, shl_add.
    replace (j + Z.to_nat (53 - d - Z.of_nat j)) with (Z.to_nat (53 - d))
      by lia.
    apply round_aux_canonical.
    + rewrite digits2_shl. fold d. lia.
    + lia.
Qed.

(** The double holding a positive integer below [2^53]. *)
Lemma Prim2SF_float_of_Z v :
  let d := Zpos (digits2_pos v) in
  (Zpos v < 2 ^ 53)%Z ->
  Prim2SF (float_of_Z (Zpos v))
  = S754_finite false (shl v (Z.to_nat (53 - d))) (d - 53).
Proof.
  intros d Hv. unfold float_of_Z. cbn [Z.ltb Z.compare Z.abs].
  rewrite of_uint63_spec, Uint63.of_Z_spec.
  rewrite Z.mod_small by (change Uint63.wB with (2 ^ 63)%Z; lia).
  cbn [binary_normalize].
  pose proof (digits2_bound v 53 Hv ltac:(lia)) as Hd. fold d in Hd.
  assert (0 < d)%Z by (unfold d; lia).
  change v with (shl v 0) at 1. rewrite binary_round_exact.
  - fold d. f_equal; lia.
  - fold d. lia.
  - fold d. unfold SpecFloat.emin, prec, emax. simpl Z.of_nat. lia.
Qed.

Lemma Prim2SF_one : Prim2SF 1 = S754_finite false (shl 1 52) (-52).
Proof. reflexivity. Qed.

(** Adding 1 to a double holding an integer below [2^53] is exact. *)
Lemma float_of_Z_succ n :
  (0 <= n < two_53)%Z -> (float_of_Z n + 1)%float = float_of_Z (n + 1).
Proof.
  unfold two_53. intros Hn.
  destruct (Z.eq_dec n 0) as [->|Hn0]; [reflexivity|].
  destruct (Z.eq_dec n (2 ^ 53 - 1)) as [->|Hn1]; [reflexivity|].
  destruct n as [|v|v]; try lia.
  apply Prim2SF_inj. rewrite FloatAxioms.add_spec, Prim2SF_one.
  rewrite Prim2SF_float_of_Z by lia.
  replace (Zpos v + 1)%Z with (Zpos (v + 1)) by lia.
  rewrite Prim2SF_float_of_Z by lia.
  pose proof (digits2_bound v 53 ltac:(lia) ltac:(lia)) as Hd.
  set (d := Zpos (digits2_pos v)) in *.
  assert (0 < d)%Z by (unfold d; lia).
  unfold SF64add, SFadd.
  replace (Z.min (d - 53) (-52)) with (-52)%Z by lia.
  replace (-52)%Z with (d - 53 - Z.of_nat (Z.to_nat (d - 1)))%Z at 1 by lia.
  rewrite shl_align_left, shl_add.
  replace (Z.to_nat (53 - d) + Z.to_nat (d - 1)) with 52 by lia.
  rewrite (shl_align_none _ (-52) (-52)) by lia.
  cbn [fst cond_Zopp]. rewrite <- Pos2Z.inj_add, shl_plus.
  cbn [binary_normalize].
  pose proof (digits2_bound (v + 1) 53 ltac:(lia) ltac:(lia)) as Hd'.
  set (d' := Zpos (digits2_pos (v + 1))) in *.
  assert (0 < d')%Z by (unfold d'; lia).
  rewrite binary_round_exact.
  - fold d'. f_equal; lia.
  - fold d'. lia.
  - fold d'. unfold SpecFloat.emin, prec, emax. lia.
Qed.

Lemma integer_of_float_of_Z n :
  (0 <= n <= two_53)%Z -> integer_of_float (float_of_Z n) = Some n.
Proof.
  unfold two_53. intros Hn.
  destruct (Z.eq_dec n 0) as [->|Hn0]; [reflexivity|].
  destruct (Z.eq_dec n (2 ^ 53)) as [->|Hn1]; [reflexivity|].
  destruct n as [|v|v]; try lia.
  unfold integer_of_float. rewrite Prim2SF_float_of_Z by lia.
  pose proof (digits2_bound v 53 ltac:(lia) ltac:(lia)) as Hd.
  set (d := Zpos (digits2_pos v)) in *.
  assert (0 < d)%Z by (unfold d; lia).
  rewrite shl_Z, Z2Nat.id by lia.
  destruct (Z.leb_spec 0 (d - 53)).
  - replace (d - 53)%Z with 0%Z by lia. replace (53 - d)%Z with 0%Z by lia.
    f_equal. simpl. lia.
  - replace (- (d - 53))%Z with (53 - d)%Z by lia.
    assert (2 ^ (53 - d) <> 0)%Z by (apply Z.pow_nonzero; lia).
    rewrite Z.mod_mul, Z.div_mul by assumption. reflexivity.
Qed.

Lemma float_of_Z_top : (float_of_Z two_53 + 1)%float = float_of_Z two_53.
Proof. reflexivity. Qed.

Lemma Number_toString_integer n :
  (0 <= n <= two_53)%Z ->
  Number_toString Number_toString_other (float_of_Z n) = decimal n.
Proof.
  intros Hn. unfold Number_toString. rewrite integer_of_float_of_Z by exact Hn.
  destruct (Z.leb_spec (Z.abs n) (2 ^ 53)); [reflexivity|].
  unfold two_53 in Hn. lia.
Qed.

Lemma get_order_eq k st :
  get_order k st
  = (match Map_get k (inMemoryOrders st) with
     | Some order => json (BodyOrder order)
     | None => not_found
     end, st).
Proof.
  unfold get_order, catch_500, bind, orders_get.
  now destruct (Map_get k (inMemoryOrders st)).
Qed.

Lemma update_status_invalid k v st :
  isIn order_statuses v = false ->
  update_status k v st
  = (mkResponse 400 (BodyErrors ["Invalid order status"]), st).
Proof.
  intros H. unfold update_status, catch_500, validate_status, check.
  now rewrite H.
Qed.

Lemma update_status_absent k s st :
  includes order_statuses s = true ->
  Map_get k (inMemoryOrders st) = None ->
  update_status k (Some s) st = (not_found, st).
Proof.
  intros Hs Hk. unfold update_status, catch_500, validate_status, check.
  unfold isIn. rewrite Hs. unfold bind, orders_get. now rewrite Hk.
Qed.

Lemma update_status_present k s o st :
  includes order_statuses s = true ->
  Map_get k (inMemoryOrders st) = Some o ->
  let o' := set_status s o in
  update_status k (Some s) st
  = (json (BodyOrder o'),
     mkState (Map_set (id o') o' (Map_set k o' (inMemoryOrders st)))
       (nextOrderNumericId st)
       (map (delivered (frame "order_updated" o')) (sseClients st))).
Proof.
  intros Hs Hk o'. unfold update_status, catch_500, validate_status, check.
  unfold isIn. rewrite Hs. unfold bind at 1, orders_get. rewrite Hk.
  unfold bind, orders_mutate, orders_set. now rewrite broadcast_eq.
Qed.

Lemma Map_set_set k v1 v2 m :
  Map_set k v2 (Map_set k v1 m) = Map_set k v2 m.
Proof.
  induction m as [|[k' v'] m IH]; simpl.
  - now rewrite String.eqb_refl.
  - destruct (String.eqb k k') eqn:E; simpl.
    + now rewrite String.eqb_refl.
    + now rewrite E, IH.
Qed.

Lemma assign_absent k u st :
  Map_get k (inMemoryOrders st) = None -> assign k u st = (not_found, st).
Proof.
  intros Hk. unfold assign, catch_500, bind, orders_get. now rewrite Hk.
Qed.

Lemma assign_unavailable k u o st :
  Map_get k (inMemoryOrders st) = Some o ->
  includes available_statuses (status o) = false ->
  assign k u st
  = (mkResponse 400 (BodyError "Order is not available for assignment"), st).
Proof.
  intros Hk Hs. unfold assign, catch_500, bind, orders_get.
  now rewrite Hk, Hs.
Qed.

Lemma assign_available k u o st :
  Map_get k (inMemoryOrders st) = Some o ->
  includes available_statuses (status o) = true ->
  let o' := set_driver (driver_of u) (set_status "out_for_delivery" o) in
  assign k u st
  = (json (BodyOrder o'),
     mkState (Map_set (id o') o' (Map_set k o' (inMemoryOrders st)))
       (nextOrderNumericId st)
       (map (delivered (frame "order_assigned" o')) (sseClients st))).
Proof.
  intros Hk Hs o'. unfold assign, catch_500. unfold bind at 1, orders_get.
  rewrite Hk, Hs. cbn [negb]. unfold bind, orders_mutate, orders_set.
  rewrite broadcast_eq. simpl. now rewrite Map_set_set.
Qed.

Lemma accept_restaurant_absent k st :
  Map_get k (inMemoryOrders st) = None ->
  accept_restaurant k st = (not_found, st).
Proof.
  intros Hk. unfold accept_restaurant, catch_500, bind, orders_get.
  now rewrite Hk.
Qed.

Lemma accept_restaurant_not_pending k o st :
  Map_get k (inMemoryOrders st) = Some o ->
  includes ["pending"] (status o) = false ->
  accept_restaurant k st
  = (mkResponse 400 (BodyError "Order cannot be accepted"), st).
Proof.
  intros Hk Hs. unfold accept_restaurant, catch_500, bind, orders_get.
  now rewrite Hk, Hs.
Qed.

Lemma accept_restaurant_pending k o st :
  Map_get k (inMemoryOrders st) = Some o ->
  includes ["pending"] (status o) = true ->
  let o' := set_status "confirmed" o in
  accept_restaurant k st
  = (json (BodyOrder o'),
     mkState (Map_set (id o') o' (Map_set k o' (inMemoryOrders st)))
       (nextOrderNumericId st)
       (map (delivered (frame "order_confirmed" o')) (sseClients st))).
Proof.
  intros Hk Hs o'. unfold accept_restaurant, catch_500.
  unfold bind at 1, orders_get. rewrite Hk, Hs. cbn [negb].
  unfold bind, orders_mutate, orders_set. now rewrite broadcast_eq.
Qed.

(** *** The lifecycle order *)

Lemma includes_In l s : includes l s = true <-> In s l.
Proof.
  unfold includes. rewrite existsb_exists. split.
  - intros (x & Hx & E). apply String.eqb_eq in E. now subst.
  - intros H. exists s. split; [assumption | apply String.eqb_refl].
Qed.

Lemma advances_refl s : advances s s = true.
Proof. unfold advances. now rewrite String.eqb_refl. Qed.

Lemma advances_trans a b c :
  advances a b = true -> advances b c = true -> advances a c = true.
Proof.
  unfold advances. intros Hab Hbc.
  destruct (String.eqb a b) eqn:Eab.
  { apply String.eqb_eq in Eab. now subst b. }
  destruct (String.eqb b c) eqn:Ebc.
  { apply String.eqb_eq in Ebc. subst c. now rewrite Eab in *. }
  simpl in Hab, Hbc.
  destruct (lifecycle_rank a) as [x|]; [|discriminate].
  destruct (lifecycle_rank b) as [y|]; [|discriminate].
  destruct (lifecycle_rank c) as [z|]; [|discriminate].
  apply Nat.ltb_lt in Hab, Hbc. rewrite orb_true_iff. right.
  apply Nat.ltb_lt. lia.
Qed.

Lemma available_advances s :
  includes available_statuses s = true ->
  advances s "out_for_delivery" = true.
Proof.
  rewrite includes_In. simpl.
  intros [<-|[<-|[<-|[]]]]; reflexivity.
Qed.

Lemma pending_advances s :
  includes ["pending"] s = true -> advances s "confirmed" = true.
Proof.
  rewrite includes_In. simpl. intros [<-|[]]. reflexivity.
Qed.

(** *** One mutation, seen from every stored order *)

Lemma fixed_fields_id o o' : fixed_fields o' = fixed_fields o -> id o' = id o.
Proof. unfold fixed_fields. now intros [= -> _]. Qed.

Lemma fixed_fields_payout o o' :
  fixed_fields o' = fixed_fields o -> payoutAmount o' = payoutAmount o.
Proof. unfold fixed_fields. intros H. now injection H. Qed.

(** The registry after a handler changed the order stored under [i] and
    stored it again under its identifier. *)
Lemma restore_get m i o0 o' k :
  keys_match m ->
  Map_get i m = Some o0 ->
  fixed_fields o' = fixed_fields o0 ->
  Map_get k (Map_set (id o') o' (Map_set i o' m))
  = if String.eqb i k then Some o' else Map_get k m.
Proof.
  intros Hm Hi Hf.
  rewrite (fixed_fields_id _ _ Hf), (keys_match_get _ _ _ Hm Hi).
  now rewrite Map_set_set, Map_get_set.
Qed.

Lemma restore_keys_match m i o0 o' :
  keys_match m ->
  Map_get i m = Some o0 ->
  fixed_fields o' = fixed_fields o0 ->
  keys_match (Map_set (id o') o' (Map_set i o' m)).
Proof.
  intros Hm Hi Hf.
  pose proof (keys_match_get _ _ _ Hm Hi) as Hid.
  pose proof (fixed_fields_id _ _ Hf) as Hid'.
  apply keys_match_set; [apply keys_match_set|]; congruence.
Qed.

Lemma follows_same op o : follows op o o.
Proof.
  split; [reflexivity|]. split; auto using advances_refl.
Qed.

Lemma with_clients_same st : with_clients (sseClients st) st = st.
Proof. now destruct st. Qed.

(** A mutation either refuses (400 or 404) and leaves the state as it
    was, or changes one stored order, stores it under its identifier and
    publishes it; neither the answer nor the registry depends on the
    clients. *)
Lemma mutate_cases op st :
  (exists r,
      (statusCode r = 400 \/ statusCode r = 404)
      /\ forall cl, mutate op (with_clients cl st) = (r, with_clients cl st))
  \/ (exists i o0 o' type,
        Map_get i (inMemoryOrders st) = Some o0
        /\ follows op o0 o'
        /\ forall cl,
             mutate op (with_clients cl st)
             = (mkResponse 200 (BodyOrder o'),
                mkState (Map_set (id o') o' (Map_set i o' (inMemoryOrders st)))
                  (nextOrderNumericId st)
                  (map (delivered (frame type o')) cl))).
Proof.
  destruct op as [i v|i u|i]; simpl mutate.
  - destruct (isIn order_statuses v) eqn:Hv.
    2:{ left. exists (mkResponse 400 (BodyErrors ["Invalid order status"])).
        split; [left; reflexivity|]. intros cl.
        now apply update_status_invalid. }
    destruct v as [s|]; [|discriminate]. unfold isIn in Hv.
    destruct (Map_get i (inMemoryOrders st)) as [o0|] eqn:Hi.
    2:{ left. exists not_found. split; [right; reflexivity|]. intros cl.
        now apply update_status_absent. }
    right. exists i, o0, (set_status s o0), "order_updated".
    split; [exact Hi|]. split.
    { split; [reflexivity|]. split; [discriminate | reflexivity]. }
    intros cl. now apply update_status_present.
  - destruct (Map_get i (inMemoryOrders st)) as [o0|] eqn:Hi.
    2:{ left. exists not_found. split; [right; reflexivity|]. intros cl.
        now apply assign_absent. }
    destruct (includes available_statuses (status o0)) eqn:Hs.
    2:{ left.
        exists (mkResponse 400
                  (BodyError "Order is not available for assignment")).
        split; [left; reflexivity|]. intros cl.
        now apply assign_unavailable with o0. }
    right.
    exists i, o0, (set_driver (driver_of u) (set_status "out_for_delivery" o0)),
      "order_assigned".
    split; [exact Hi|]. split.
    { split; [reflexivity|]. split; [|discriminate].
      intros _. simpl. now apply available_advances. }
    intros cl. now apply assign_available.
  - destruct (Map_get i (inMemoryOrders st)) as [o0|] eqn:Hi.
    2:{ left. exists not_found. split; [right; reflexivity|]. intros cl.
        now apply accept_restaurant_absent. }
    destruct (includes ["pending"] (status o0)) eqn:Hs.
    2:{ left. exists (mkResponse 400 (BodyError "Order cannot be accepted")).
        split; [left; reflexivity|]. intros cl.
        now apply accept_restaurant_not_pending with o0. }
    right. exists i, o0, (set_status "confirmed" o0), "order_confirmed".
    split; [exact Hi|]. split.
    { split; [reflexivity|]. split; [|reflexivity].
      intros _. simpl. now apply pending_advances. }
    intros cl. now apply accept_restaurant_pending.
Qed.

Lemma mutate_step op st :
  keys_match (inMemoryOrders st) ->
  keys_match (inMemoryOrders (snd (mutate op st)))
  /\ forall k o,
       Map_get k (inMemoryOrders st) = Some o ->
       exists o',
         Map_get k (inMemoryOrders (snd (mutate op st))) = Some o'
         /\ follows op o o'.
Proof.
  intros Hm.
  destruct (mutate_cases op st)
    as [(r & _ & E)|(i & o0 & o' & type & Hi & Hfo & E)];
    specialize (E (sseClients st)); rewrite with_clients_same in E;
    rewrite E; simpl.
  - split; [assumption|]. intros k o Hk. exists o.
    split; [assumption | apply follows_same].
  - pose proof Hfo as (Hf & _).
    split; [now apply restore_keys_match with o0|].
    intros k o Hk. rewrite (restore_get _ _ _ _ _ Hm Hi Hf).
    destruct (String.eqb i k) eqn:Ek.
    + apply String.eqb_eq in Ek. subst k. exists o'. split; [reflexivity|].
      congruence.
    + exists o. split; [assumption | apply follows_same].
Qed.

(** Mutations leave the identifier counter alone and never answer 201. *)
Lemma mutate_counter op st :
  nextOrderNumericId (snd (mutate op st)) = nextOrderNumericId st
  /\ statusCode (fst (mutate op st)) <> 201.
Proof.
  destruct (mutate_cases op st)
    as [(r & Hr & E)|(i & o0 & o' & type & _ & _ & E)];
    specialize (E (sseClients st)); rewrite with_clients_same in E;
    rewrite E; simpl.
  - split; [reflexivity|]. destruct Hr as [-> | ->]; discriminate.
  - split; [reflexivity | discriminate].
Qed.

(** A run of mutations, seen from every stored order. *)
Lemma run_steps ops :
  forall st,
    keys_match (inMemoryOrders st) ->
    forall k o,
      Map_get k (inMemoryOrders st) = Some o ->
      exists o',
        Map_get k (inMemoryOrders (run ops st)) = Some o'
        /\ fixed_fields o' = fixed_fields o
        /\ (forallb guarded ops = true ->
            advances (status o) (status o') = true)
        /\ (existsb is_assign ops = false -> driver o' = driver o).
Proof.
  induction ops as [|op ops IH]; intros st Hm k o Hk; simpl.
  - exists o. split; [assumption|]. split; [reflexivity|].
    split; auto using advances_refl.
  - destruct (mutate_step op st Hm) as (Hm' & Hstep).
    destruct (Hstep k o Hk) as (o1 & Hk1 & Hf1 & Hg1 & Hd1).
    destruct (IH _ Hm' k o1 Hk1) as (o2 & Hk2 & Hf2 & Hg2 & Hd2).
    exists o2. split; [assumption|]. split; [congruence|]. split.
    + intros Hg. apply andb_prop in Hg as [Hg Hgs].
      eapply advances_trans; eauto.
    + intros Ha. apply orb_false_elim in Ha as [Ha Has].
      rewrite Hd2, Hd1; auto.
Qed.

(** ** Properties of the service *)

(** C3.  [assign] answers 404 "Order not found" when the identifier is
    absent and 400 when the stored order's status is not one of pending,
    confirmed, preparing (both leaving the state as it was); otherwise it
    answers with the order, now [out_for_delivery] and carrying the
    caller as its driver, and that order is what the registry holds.  The
    driver recorded has the caller's [_id], or its [id] when [_id] is
    missing or empty, and the caller's name, or [Driver] when the name is
    missing or empty; without a caller it has no identifier and the name
    [Driver]. *)
Theorem assign_outcomes k u st :
  match Map_get k (inMemoryOrders st) with
  | None => assign k u st = (not_found, st)
  | Some o =>
      if includes available_statuses (status o)
      then
        exists o',
          fst (assign k u st) = mkResponse 200 (BodyOrder o')
          /\ status o' = "out_for_delivery"
          /\ driver o'
             = Some
                 match u with
                 | Some caller =>
                     mkDriver
                       match user__id caller with
                       | Some i =>
                           if String.eqb i "" then user_id caller else Some i
                       | None => user_id caller
                       end
                       match user_name caller with
                       | Some n => if String.eqb n "" then "Driver" else n
                       | None => "Driver"
                       end
                 | None => mkDriver None "Driver"
                 end
          /\ fixed_fields o' = fixed_fields o
          /\ Map_get k (inMemoryOrders (snd (assign k u st))) = Some o'
      else
        assign k u st
        = (mkResponse 400 (BodyError "Order is not available for assignment"),
           st)
  end.
Proof.
  destruct (Map_get k (inMemoryOrders st)) as [o|] eqn:Hk.
  - destruct (includes available_statuses (status o)) eqn:Hs.
    + rewrite (assign_available _ _ _ _ Hk Hs). simpl.
      eexists. split; [reflexivity|]. split; [reflexivity|]. split.
      { unfold driver_of, or_text, or_default, user_field, truthy_text.
        destruct u as [[[i|] ? [n|] ?]|]; simpl; try reflexivity;
          try destruct (String.eqb i ""); try destruct (String.eqb n "");
          reflexivity. }
      split; [reflexivity|].
      rewrite Map_get_set, Map_get_set_same.
      now destruct (String.eqb (id o) k).
    + now apply assign_unavailable with o.
  - now apply assign_absent.
Qed.

(** C4.  On an order whose status is pending, accept-by-restaurant
    answers with the order confirmed and stores it; a second call on the
    same identifier answers 400 "Order cannot be accepted" and leaves the
    whole state as the first call left it. *)
Theorem accept_restaurant_twice k o st :
  Map_get k (inMemoryOrders st) = Some o ->
  status o = "pending" ->
  let o' := set_status "confirmed" o in
  let st1 := snd (accept_restaurant k st) in
  fst (accept_restaurant k st) = mkResponse 200 (BodyOrder o')
  /\ Map_get k (inMemoryOrders st1) = Some o'
  /\ accept_restaurant k st1
     = (mkResponse 400 (BodyError "Order cannot be accepted"), st1).
Proof.
  intros Hk Hs o' st1.
  assert (Hp : includes ["pending"] (status o) = true) by now rewrite Hs.
  assert (Hk1 : Map_get k (inMemoryOrders st1) = Some o').
  { subst st1. rewrite (accept_restaurant_pending _ _ _ Hk Hp). simpl.
    rewrite Map_get_set, Map_get_set_same.
    now destruct (String.eqb (id o) k). }
  split; [now rewrite (accept_restaurant_pending _ _ _ Hk Hp)|].
  split; [assumption|].
  now apply accept_restaurant_not_pending with o'.
Qed.

(** C5.  An update-status request whose [status] is not one of the six
    enumerated values (or is missing) is answered 400 with the
    validation error, and the state, hence every stored order and its
    status, is left as it was. *)
Theorem update_status_rejects_unknown k v st :
  (forall s, v = Some s -> ~ In s order_statuses) ->
  update_status k v st
  = (mkResponse 400 (BodyErrors ["Invalid order status"]), st).
Proof.
  intros Hv. apply update_status_invalid.
  destruct v as [s|]; [|reflexivity]. unfold isIn.
  destruct (includes order_statuses s) eqn:E; [|reflexivity].
  apply includes_In in E. now elim (Hv s).
Qed.


(** *** Fan-out *)






(** *** Identifiers *)

Lemma decimal_inj n m : decimal n = decimal m -> n = m.
Proof.
  unfold decimal. intros H.
  apply (f_equal NilEmpty.int_of_string) in H.
  rewrite !NilEmpty.isi in H. injection H as H.
  apply (f_equal Z.of_int) in H. now rewrite !DecimalZ.of_to in H.
Qed.

Lemma order_id_inj n m : order_id n = order_id m -> n = m.
Proof.
  unfold order_id. simpl. intros [= H]. now apply decimal_inj.
Qed.

Lemma sorted_ids_NoDup ns :
  StronglySorted Z.lt ns -> NoDup (map order_id ns).
Proof.
  induction 1 as [|n ns Hs IH Hn]; simpl; constructor; [|assumption].
  rewrite in_map_iff. intros (m & E & Hm).
  apply order_id_inj in E. subst m.
  rewrite Forall_forall in Hn. specialize (Hn n Hm). lia.
Qed.

(** One request: either no identifier is drawn and the counter stays, or
    the identifier of the counter's value is drawn and the counter is
    incremented; the identifier drawn is that of the order created, or is
    lost when the creation fails on a [null] item. *)
Lemma handle_counter r st :
  let c := nextOrderNumericId st in
  (created_id (fst (handle r st)) = None
   /\ nextOrderNumericId (snd (handle r st)) = c)
  \/ ((created_id (fst (handle r st)) = None
       \/ created_id (fst (handle r st))
          = Some ("ORD-" ++ Number_toString Number_toString_other c))
      /\ nextOrderNumericId (snd (handle r st)) = (c + 1)%float).
Proof.
  intros c. destruct r as [|req|i|op| |res|rid]; simpl.
  - left. now split.
  - destruct (create_order_cases req st)
      as [(Hv & E)|[(Hv & Hnull & E)|(Hv & _ & o & Ho & E)]]; rewrite E;
      cbn [fst snd created_id body statusCode nextOrderNumericId].
    + left. now split.
    + right. split; [now left | reflexivity].
    + right. rewrite (new_order_id _ _ _ Ho). split; [now right | reflexivity].
  - left. rewrite get_order_eq. simpl.
    now destruct (Map_get i (inMemoryOrders st)).
  - left. destruct (mutate_counter op st) as (Hc & Hr).
    destruct (mutate op st) as [x st'] eqn:E. simpl in *.
    split; [|exact Hc].
    destruct (body x); try reflexivity.
    apply Nat.eqb_neq in Hr. now rewrite Hr.
  - left. now split.
  - left. unfold events. now destruct (res_write res _).
  - left. now split.
Qed.

Lemma serve_ids reqs :
  forall st n,
    nextOrderNumericId st = float_of_Z n ->
    (0 <= n)%Z ->
    (n + Z.of_nat (List.length reqs) <= two_53)%Z ->
    exists ns,
      created_ids (fst (serve reqs st)) = map order_id ns
      /\ StronglySorted Z.lt ns
      /\ Forall (fun m => n <= m)%Z ns.
Proof.
  induction reqs as [|r reqs IH]; intros st n Hn H0 Hb.
  - exists []. repeat constructor.
  - cbn [serve]. cbn [List.length] in Hb.
    pose proof (handle_counter r st) as H. cbv zeta in H.
    destruct (handle r st) as [x st'] eqn:E. cbn [fst snd] in H.
    rewrite Hn in H.
    destruct (serve reqs st') as [xs st''] eqn:E'.
    cbn [fst created_ids].
    destruct H as [(-> & Hc)|([-> | ->] & Hc)].
    + destruct (IH st' n Hc H0) as (ns & Hids & Hs & Hge); [lia|].
      rewrite E' in Hids. exists ns. auto.
    + rewrite float_of_Z_succ in Hc by lia.
      destruct (IH st' (n + 1)%Z Hc) as (ns & Hids & Hs & Hge);
        [lia | lia |].
      rewrite E' in Hids. exists ns. split; [assumption|].
      split; [assumption|].
      eapply Forall_impl; [|exact Hge]. cbv beta. intros; lia.
    + rewrite float_of_Z_succ in Hc by lia.
      destruct (IH st' (n + 1)%Z Hc) as (ns & Hids & Hs & Hge);
        [lia | lia |].
      rewrite E' in Hids. cbn [fst] in Hids.
      rewrite Number_toString_integer by lia. fold (order_id n).
      exists (n :: ns). cbn [map]. rewrite Hids.
      split; [reflexivity|]. split.
      * constructor; [assumption|].
        eapply Forall_impl; [|exact Hge]. cbv beta. intros; lia.
      * constructor; [lia|].
        eapply Forall_impl; [|exact Hge]. cbv beta. intros; lia.
Qed.

(** C8.  Over the requests of one process, from its start and as long as
    the counter stays within the integers a double counts exactly (at
    most [2^53 - 1010] requests, which no process lifetime exhausts), the
    identifiers of the orders created are, in creation order, the prefix
    [ORD-] followed by the decimal digits of a number: these numbers are
    strictly increasing, none is below the seed 1010, and the
    identifiers are pairwise distinct. *)
Theorem order_ids_strictly_increase reqs :
  (Z.of_nat (List.length reqs) <= two_53 - 1010)%Z ->
  exists ns,
    created_ids (fst (serve reqs initial_state))
    = map (fun n => "ORD-" ++ decimal n) ns
    /\ StronglySorted Z.lt ns
    /\ Forall (fun n => 1010 <= n)%Z ns
    /\ NoDup (created_ids (fst (serve reqs initial_state))).
Proof.
  intros Hb.
  destruct (serve_ids reqs initial_state 1010) as (ns & Hids & Hs & Hge);
    [reflexivity | lia | lia |].
  exists ns. split; [exact Hids|]. split; [assumption|].
  split; [exact Hge|]. rewrite Hids. now apply sorted_ids_NoDup.
Qed.

(** *** The payout *)













(** *** What holds of every state the process reaches *)

Lemma handle_keys_match r st :
  keys_match (inMemoryOrders st) ->
  keys_match (inMemoryOrders (snd (handle r st))).
Proof.
  intros Hm. destruct r as [|req|i|op| |res|rid]; simpl; try assumption.
  - destruct (create_order_cases req st)
      as [(Hv & E)|[(Hv & Hnull & E)|(Hv & _ & o & Ho & E)]]; rewrite E;
      cbn [snd inMemoryOrders]; try assumption.
    now apply keys_match_set.
  - now rewrite get_order_eq.
  - destruct (mutate_step op st Hm) as (Hm' & _).
    now destruct (mutate op st).
  - unfold events. now destruct (res_write res _).
Qed.

(** Every order the process stores is stored under its identifier. *)
Lemma served_keys_match reqs :
  forall st,
    keys_match (inMemoryOrders st) ->
    keys_match (inMemoryOrders (snd (serve reqs st))).
Proof.
  induction reqs as [|r reqs IH]; intros st Hm; simpl; [assumption|].
  pose proof (handle_keys_match r st Hm) as Hm'.
  destruct (handle r st) as [x st']. specialize (IH st' Hm').
  now destruct (serve reqs st').
Qed.

(** The counter always holds an integer between the seed and [2^53],
    where it stays once it gets there. *)
Lemma counter_range reqs :
  forall st,
    (exists n,
        (1010 <= n <= two_53)%Z /\ nextOrderNumericId st = float_of_Z n) ->
    exists n,
      (1010 <= n <= two_53)%Z
      /\ nextOrderNumericId (snd (serve reqs st)) = float_of_Z n.
Proof.
  induction reqs as [|r reqs IH]; intros st Hc; simpl; [assumption|].
  pose proof (handle_counter r st) as H. cbv zeta in H.
  destruct (handle r st) as [x st']. cbn [fst snd] in H.
  assert (Hc' : exists n,
             (1010 <= n <= two_53)%Z /\ nextOrderNumericId st' = float_of_Z n).
  { destruct Hc as (n & Hn & E). rewrite E in H.
    destruct H as [(_ & ->)|(_ & ->)]; [now exists n|].
    destruct (Z.eq_dec n two_53) as [->|Hne].
    - exists two_53. split; [lia | apply float_of_Z_top].
    - exists (n + 1)%Z. split; [lia | apply float_of_Z_succ; lia]. }
  specialize (IH st' Hc'). now destruct (serve reqs st').
Qed.

(** C1, as amended.  For every order stored in a state the process
    reaches: along any run of assign and accept-by-restaurant operations
    the order stays stored and its status only moves forward on the
    lifecycle [pending -> confirmed -> preparing -> out_for_delivery ->
    delivered]: it stays what it was or becomes a later stage of that
    line, never an earlier one and never [cancelled]; update-status, on
    the other hand, stores whichever of the six enumerated values the
    request carries, whatever the current status is. *)
Theorem guarded_mutations_move_forward reqs k o :
  let st := snd (serve reqs initial_state) in
  Map_get k (inMemoryOrders st) = Some o ->
  (forall ops,
     forallb guarded ops = true ->
     exists o',
       Map_get k (inMemoryOrders (run ops st)) = Some o'
       /\ advances (status o) (status o') = true)
  /\ (forall s,
        In s order_statuses ->
        exists o',
          Map_get k (inMemoryOrders (snd (update_status k (Some s) st)))
          = Some o'
          /\ status o' = s).
Proof.
  intros st Hk.
  assert (Hm : keys_match (inMemoryOrders st))
    by (apply served_keys_match; constructor).
  split.
  - intros ops Hg.
    destruct (run_steps ops st Hm k o Hk) as (o' & Hk' & _ & Hfw & _).
    exists o'. auto.
  - intros s Hs. apply includes_In in Hs.
    rewrite (update_status_present _ _ _ _ Hs Hk). simpl.
    exists (set_status s o). split; [|reflexivity].
    rewrite Map_get_set, Map_get_set_same.
    now destruct (String.eqb (id o) k).
Qed.

(** C9.  Every order stored in a state the process reaches stays stored
    along any run of update-status, assign and accept-by-restaurant
    operations, with its payout amount and every other field but
    [status] and [driver] unchanged; the driver is unchanged too unless
    the run contains an assign. *)
Theorem mutations_keep_fixed_fields reqs k o ops :
  let st := snd (serve reqs initial_state) in
  Map_get k (inMemoryOrders st) = Some o ->
  exists o',
    Map_get k (inMemoryOrders (run ops st)) = Some o'
    /\ payoutAmount o' = payoutAmount o
    /\ fixed_fields o' = fixed_fields o
    /\ (existsb is_assign ops = false -> driver o' = driver o).
Proof.
  intros st Hk.
  assert (Hm : keys_match (inMemoryOrders st))
    by (apply served_keys_match; constructor).
  destruct (run_steps ops st Hm k o Hk) as (o' & Hk' & Hf & _ & Hd).
  exists o'. auto using fixed_fields_payout.
Qed.

(** ** Further properties *)

(** *** Mutations, by what they make of the order they address *)

Lemma applied_fixed_fields op o o' :
  applied op o = Some o' -> fixed_fields o' = fixed_fields o.
Proof.
  destruct op as [i [s|]|i u|i]; cbn [applied].
  - destruct (includes order_statuses s); [|discriminate]. now intros [= <-].
  - discriminate.
  - destruct (includes available_statuses (status o)); [|discriminate].
    now intros [= <-].
  - destruct (includes ["pending"] (status o)); [|discriminate].
    now intros [= <-].
Qed.

Lemma applied_status op o o' :
  applied op o = Some o' -> In (status o') order_statuses.
Proof.
  destruct op as [i [s|]|i u|i]; cbn [applied].
  - destruct (includes order_statuses s) eqn:E; [|discriminate].
    intros [= <-]. now apply includes_In in E.
  - discriminate.
  - destruct (includes available_statuses (status o)); [|discriminate].
    intros [= <-]. simpl. auto.
  - destruct (includes ["pending"] (status o)); [|discriminate].
    intros [= <-]. simpl. auto.
Qed.

Lemma applied_guarded op o o' :
  guarded op = true -> applied op o = Some o' ->
  includes available_statuses (status o) = true.
Proof.
  destruct op as [i v|i u|i]; cbn [applied guarded]; [discriminate| |]; intros _.
  - now destruct (includes available_statuses (status o)).
  - destruct (includes ["pending"] (status o)) eqn:E; [|discriminate].
    intros _. apply includes_In in E. destruct E as [<-|[]]. reflexivity.
Qed.

Lemma mutate_accepts op st o o' :
  Map_get (target op) (inMemoryOrders st) = Some o ->
  applied op o = Some o' ->
  mutate op st
  = (mkResponse 200 (BodyOrder o'),
     mkState
       (Map_set (id o') o' (Map_set (target op) o' (inMemoryOrders st)))
       (nextOrderNumericId st)
       (map (delivered (frame (event_type op) o')) (sseClients st))).
Proof.
  intros Hk Ha. destruct op as [i [s|]|i u|i];
    cbn [applied target mutate event_type] in *.
  - destruct (includes order_statuses s) eqn:E; [|discriminate].
    injection Ha as <-. now apply update_status_present.
  - discriminate.
  - destruct (includes available_statuses (status o)) eqn:E; [|discriminate].
    injection Ha as <-. now apply assign_available.
  - destruct (includes ["pending"] (status o)) eqn:E; [|discriminate].
    injection Ha as <-. now apply accept_restaurant_pending.
Qed.

Lemma mutate_refuses op st :
  match Map_get (target op) (inMemoryOrders st) with
  | Some o => applied op o = None
  | None => True
  end ->
  snd (mutate op st) = st
  /\ (statusCode (fst (mutate op st)) = 400
      \/ statusCode (fst (mutate op st)) = 404).
Proof.
  intros H. destruct op as [i v|i u|i]; cbn [applied target mutate] in *.
  - destruct (isIn order_statuses v) eqn:Hv.
    2:{ rewrite update_status_invalid by assumption. auto. }
    destruct v as [s|]; [|discriminate Hv]. unfold isIn in Hv.
    destruct (Map_get i (inMemoryOrders st)) as [o|] eqn:Hk.
    + cbn [applied] in H. rewrite Hv in H. discriminate H.
    + rewrite update_status_absent by assumption. auto.
  - destruct (Map_get i (inMemoryOrders st)) as [o|] eqn:Hk.
    + destruct (includes available_statuses (status o)) eqn:E;
        [discriminate|].
      rewrite (assign_unavailable _ _ _ _ Hk E). auto.
    + rewrite assign_absent by assumption. auto.
  - destruct (Map_get i (inMemoryOrders st)) as [o|] eqn:Hk.
    + destruct (includes ["pending"] (status o)) eqn:E; [discriminate|].
      rewrite (accept_restaurant_not_pending _ _ _ Hk E). auto.
    + rewrite accept_restaurant_absent by assumption. auto.
Qed.

(** The two cases, for proofs by cases. *)
Lemma mutate_either op st :
  (exists o o',
      Map_get (target op) (inMemoryOrders st) = Some o
      /\ applied op o = Some o'
      /\ mutate op st
         = (mkResponse 200 (BodyOrder o'),
            mkState
              (Map_set (id o') o' (Map_set (target op) o' (inMemoryOrders st)))
              (nextOrderNumericId st)
              (map (delivered (frame (event_type op) o')) (sseClients st))))
  \/ (snd (mutate op st) = st
      /\ (statusCode (fst (mutate op st)) = 400
          \/ statusCode (fst (mutate op st)) = 404)).
Proof.
  destruct (Map_get (target op) (inMemoryOrders st)) as [o|] eqn:Hk.
  - destruct (applied op o) as [o'|] eqn:Ha.
    + left. exists o, o'. split; [reflexivity|]. split; [assumption|].
      now apply mutate_accepts with o.
    + right. apply mutate_refuses. now rewrite Hk.
  - right. apply mutate_refuses. now rewrite Hk.
Qed.

(** *** Keys of the registry *)

Lemma includes_keys_get k m :
  includes (Map_keys m) k = true <-> Map_get k m <> None.
Proof.
  induction m as [|[k' v] m IH]; simpl.
  - split; [discriminate | congruence].
  - destruct (String.eqb k k'); simpl; [|exact IH].
    split; [discriminate | reflexivity].
Qed.

Lemma Map_keys_set k v m :
  Map_keys (Map_set k v m)
  = if includes (Map_keys m) k then Map_keys m else (Map_keys m ++ [k])%list.
Proof.
  induction m as [|[k' v'] m IH]; simpl; [reflexivity|].
  destruct (String.eqb k k') eqn:E; simpl.
  - apply String.eqb_eq in E. now subst.
  - rewrite IH. unfold includes. now destruct (existsb _ _).
Qed.

Lemma Map_keys_set_NoDup k v m :
  NoDup (Map_keys m) -> NoDup (Map_keys (Map_set k v m)).
Proof.
  intros H. rewrite Map_keys_set.
  destruct (includes (Map_keys m) k) eqn:E; [assumption|].
  apply NoDup_app; [assumption | repeat constructor; auto |].
  intros x Hx [<-|[]]. apply includes_In in Hx. congruence.
Qed.

Lemma Map_get_set_keeps k k' v m :
  Map_get k m <> None -> Map_get k (Map_set k' v m) <> None.
Proof.
  intros H. rewrite Map_get_set. now destruct (String.eqb k' k).
Qed.

(** The registry after one request: the same, or with stores added. *)
Lemma handle_registry r st :
  inMemoryOrders (snd (handle r st)) = inMemoryOrders st
  \/ (exists k v,
        inMemoryOrders (snd (handle r st)) = Map_set k v (inMemoryOrders st))
  \/ (exists k v k' v',
        inMemoryOrders (snd (handle r st))
        = Map_set k v (Map_set k' v' (inMemoryOrders st))).
Proof.
  destruct r as [|req|i|op| |res|rid]; simpl; auto.
  - destruct (create_order_cases req st)
      as [(Hv & E)|[(Hv & Hnull & E)|(Hv & _ & o & Ho & E)]]; rewrite E;
      cbn [snd inMemoryOrders]; eauto.
  - left. now rewrite get_order_eq.
  - destruct (mutate_either op st) as [(o & o' & _ & _ & E)|(E & _)].
    + right. right. rewrite E. simpl. eauto.
    + left. destruct (mutate op st). simpl in *. now subst.
  - left. unfold events. now destruct (res_write res _).
Qed.

(** X1.  No request removes an order: whatever is stored under an
    identifier, something is stored under it after any further requests. *)
Theorem orders_are_never_deleted reqs :
  forall st k o,
    Map_get k (inMemoryOrders st) = Some o ->
    exists o', Map_get k (inMemoryOrders (snd (serve reqs st))) = Some o'.
Proof.
  induction reqs as [|r reqs IH]; intros st k o Hk; simpl; [eauto|].
  assert (H : Map_get k (inMemoryOrders (snd (handle r st))) <> None).
  { destruct (handle_registry r st)
      as [->|[(k1 & v1 & ->)|(k1 & v1 & k2 & v2 & ->)]];
      repeat apply Map_get_set_keeps; congruence. }
  destruct (handle r st) as [x st']. simpl in H.
  destruct (Map_get k (inMemoryOrders st')) as [o1|] eqn:Hk1; [|congruence].
  destruct (IH st' k o1 Hk1) as (o' & Ho').
  destruct (serve reqs st'). eauto.
Qed.

(** X2.  The status of every order the process stores is one of the six
    enumerated values. *)
Theorem stored_status_is_enumerated reqs k o :
  Map_get k (inMemoryOrders (snd (serve reqs initial_state))) = Some o ->
  In (status o) order_statuses.
Proof.
  assert (Hset : forall m k' v,
             (forall k o, Map_get k m = Some o -> In (status o) order_statuses) ->
             In (status v) order_statuses ->
             forall k o, Map_get k (Map_set k' v m) = Some o ->
                         In (status o) order_statuses).
  { intros m k' v Hm Hv k0 o0. rewrite Map_get_set.
    destruct (String.eqb k' k0); [now intros [= <-] | apply Hm]. }
  assert (Hstep : forall r st,
             (forall k o, Map_get k (inMemoryOrders st) = Some o ->
                          In (status o) order_statuses) ->
             forall k o, Map_get k (inMemoryOrders (snd (handle r st))) = Some o ->
                         In (status o) order_statuses).
  { intros r st Hst. destruct r as [|req|i|op| |res|rid]; simpl; auto.
    - destruct (create_order_cases req st)
        as [(Hv & E)|[(Hv & Hnull & E)|(Hv & _ & o0 & Ho & E)]]; rewrite E;
        cbn [snd inMemoryOrders]; try assumption.
      apply Hset; [assumption|].
      apply new_order_Normal in Ho as (_ & -> & _). simpl. auto.
    - now rewrite get_order_eq.
    - destruct (mutate_either op st) as [(o0 & o' & _ & Ha & E)|(E & _)].
      + rewrite E. simpl. apply applied_status in Ha. now repeat apply Hset.
      + destruct (mutate op st). simpl in *. now subst.
    - unfold events. now destruct (res_write res _). }
  assert (Hrun : forall reqs st,
             (forall k o, Map_get k (inMemoryOrders st) = Some o ->
                          In (status o) order_statuses) ->
             forall k o,
               Map_get k (inMemoryOrders (snd (serve reqs st))) = Some o ->
               In (status o) order_statuses).
  { clear reqs k o. induction reqs as [|r reqs IH]; intros st Hst; simpl; [assumption|].
    pose proof (Hstep r st Hst) as Hst'.
    destruct (handle r st) as [x st']. simpl in Hst'.
    specialize (IH st' Hst'). now destruct (serve reqs st'). }
  apply Hrun. intros k0 o0. discriminate.
Qed.

(** *** The registry against the identifiers issued *)

Lemma keys_match_ids m : keys_match m -> map id (Map_values m) = Map_keys m.
Proof.
  unfold keys_match, Map_values, Map_keys.
  induction 1 as [|[k v] m Hkv Hm IH]; simpl; [reflexivity|].
  simpl in Hkv. congruence.
Qed.

Lemma issued_below_fresh n m :
  Forall (issued_below n) (Map_keys m) ->
  includes (Map_keys m) (order_id n) = false.
Proof.
  intros H. destruct (includes (Map_keys m) (order_id n)) eqn:E; [|reflexivity].
  apply includes_In in E. rewrite Forall_forall in H.
  destruct (H _ E) as (j & Hj & Ej). apply order_id_inj in Ej. lia.
Qed.

Lemma created_id_201 o :
  created_id (Some (mkResponse 201 (BodyOrder o))) = Some (id o).
Proof. reflexivity. Qed.

(** One request in a state whose keys were all issued below the counter:
    nothing is created and keys and counter stay; or the creation fails
    with 500, the keys stay and the counter moves on; or the counter's
    identifier is issued, appended to the keys, and the counter moves
    on. *)
Lemma handle_keys r st n :
  nextOrderNumericId st = float_of_Z n ->
  (0 <= n < two_53)%Z ->
  keys_match (inMemoryOrders st) ->
  Forall (issued_below n) (Map_keys (inMemoryOrders st)) ->
  (created_id (fst (handle r st)) = None
   /\ server_failed (fst (handle r st)) = false
   /\ Map_keys (inMemoryOrders (snd (handle r st)))
      = Map_keys (inMemoryOrders st)
   /\ nextOrderNumericId (snd (handle r st)) = float_of_Z n)
  \/ (created_id (fst (handle r st)) = None
      /\ server_failed (fst (handle r st)) = true
      /\ Map_keys (inMemoryOrders (snd (handle r st)))
         = Map_keys (inMemoryOrders st)
      /\ nextOrderNumericId (snd (handle r st)) = float_of_Z (n + 1))
  \/ (created_id (fst (handle r st)) = Some (order_id n)
      /\ server_failed (fst (handle r st)) = false
      /\ Map_keys (inMemoryOrders (snd (handle r st)))
         = (Map_keys (inMemoryOrders st) ++ [order_id n])%list
      /\ nextOrderNumericId (snd (handle r st)) = float_of_Z (n + 1)).
Proof.
  intros Hn Hb Hm Hk.
  destruct r as [|req|i|op| |res|rid]; simpl; auto.
  - destruct (create_order_cases req st)
      as [(Hv & E)|[(Hv & Hnull & E)|(Hv & _ & o & Ho & E)]]; rewrite E;
      cbn [fst snd inMemoryOrders nextOrderNumericId].
    + left. auto.
    + right. left. rewrite Hn, float_of_Z_succ by lia. auto.
    + right. right. rewrite created_id_201, (new_order_id _ _ _ Ho).
      rewrite Hn, Number_toString_integer, float_of_Z_succ by lia.
      fold (order_id n). rewrite Map_keys_set, issued_below_fresh by assumption.
      auto.
  - left. rewrite get_order_eq. simpl.
    now destruct (Map_get i (inMemoryOrders st)).
  - left. destruct (mutate_either op st) as [(o & o' & Ho & Ha & E)|(E & Hc)].
    + rewrite E. simpl. split; [reflexivity|]. split; [reflexivity|].
      split; [|assumption].
      pose proof (applied_fixed_fields _ _ _ Ha) as Hf.
      rewrite (fixed_fields_id _ _ Hf), (keys_match_get _ _ _ Hm Ho).
      rewrite Map_set_set, Map_keys_set.
      assert (Hin : includes (Map_keys (inMemoryOrders st)) (target op) = true)
        by (apply includes_keys_get; congruence).
      now rewrite Hin.
    + destruct (mutate op st) as [x st'] eqn:Em. simpl in *. subst st'.
      split; [|split; [|auto]].
      * destruct (body x); try reflexivity.
        destruct Hc as [-> | ->]; reflexivity.
      * destruct Hc as [-> | ->]; reflexivity.
  - left. unfold events. destruct (res_write res _); auto.
Qed.

Lemma issued_below_mono n n' k :
  (n <= n')%Z -> issued_below n k -> issued_below n' k.
Proof. intros H (j & Hj & E). exists j. split; [lia | assumption]. Qed.

Lemma serve_registry reqs :
  forall st n,
    nextOrderNumericId st = float_of_Z n ->
    (0 <= n)%Z ->
    (n + Z.of_nat (List.length reqs) <= two_53)%Z ->
    keys_match (inMemoryOrders st) ->
    Forall (issued_below n) (Map_keys (inMemoryOrders st)) ->
    let ids := created_ids (fst (serve reqs st)) in
    let failed := filter server_failed (fst (serve reqs st)) in
    let st' := snd (serve reqs st) in
    let n' := (n + Z.of_nat (List.length ids)
               + Z.of_nat (List.length failed))%Z in
    Map_keys (inMemoryOrders st') = (Map_keys (inMemoryOrders st) ++ ids)%list
    /\ nextOrderNumericId st' = float_of_Z n'
    /\ (n' <= n + Z.of_nat (List.length reqs))%Z
    /\ Forall (issued_below n') (Map_keys (inMemoryOrders st')).
Proof.
  induction reqs as [|r reqs IH]; intros st n Hn H0 Hb Hm Hk.
  - simpl. rewrite app_nil_r, !Z.add_0_r. auto with zarith.
  - cbn [List.length] in *. cbn [serve].
    pose proof (handle_keys r st n Hn ltac:(lia) Hm Hk) as H.
    pose proof (handle_keys_match r st Hm) as Hm'.
    destruct (handle r st) as [x st1]. cbn [fst snd] in H, Hm'.
    destruct H as [(Hx & Hf & Hkeys & Hc)|[(Hx & Hf & Hkeys & Hc)
                                          |(Hx & Hf & Hkeys & Hc)]].
    + assert (Hk1 : Forall (issued_below n) (Map_keys (inMemoryOrders st1)))
        by now rewrite Hkeys.
      specialize (IH st1 n Hc H0 ltac:(lia) Hm' Hk1).
      destruct (serve reqs st1) as [xs st2].
      cbn [fst snd created_ids filter] in *.
      rewrite Hx, Hf. cbv zeta in IH. rewrite Hkeys in IH.
      destruct IH as (A & B & C & D).
      split; [exact A|]. split; [exact B|]. split; [lia | exact D].
    + assert (Hk1 : Forall (issued_below (n + 1))
                      (Map_keys (inMemoryOrders st1))).
      { rewrite Hkeys. eapply Forall_impl; [|exact Hk].
        intros a. apply issued_below_mono. lia. }
      specialize (IH st1 (n + 1)%Z Hc ltac:(lia) ltac:(lia) Hm' Hk1).
      destruct (serve reqs st1) as [xs st2].
      cbn [fst snd created_ids filter] in *.
      rewrite Hx, Hf. cbv zeta in IH. rewrite Hkeys in IH.
      destruct IH as (A & B & C & D). cbn [List.length].
      replace (n + Z.of_nat (List.length (created_ids xs))
               + Z.of_nat (S (List.length (filter server_failed xs))))%Z
        with (n + 1 + Z.of_nat (List.length (created_ids xs))
              + Z.of_nat (List.length (filter server_failed xs)))%Z by lia.
      split; [exact A|]. split; [exact B|]. split; [lia | exact D].
    + assert (Hk1 : Forall (issued_below (n + 1))
                      (Map_keys (inMemoryOrders st1))).
      { rewrite Hkeys. apply Forall_app. split.
        - eapply Forall_impl; [|exact Hk].
          intros a. apply issued_below_mono. lia.
        - repeat constructor. exists n. split; [lia | reflexivity]. }
      specialize (IH st1 (n + 1)%Z Hc ltac:(lia) ltac:(lia) Hm' Hk1).
      destruct (serve reqs st1) as [xs st2].
      cbn [fst snd created_ids filter] in *.
      rewrite Hx, Hf. cbv zeta in IH. rewrite Hkeys in IH.
      destruct IH as (A & B & C & D). cbn [List.length].
      replace (n + Z.of_nat (S (List.length (created_ids xs)))
               + Z.of_nat (List.length (filter server_failed xs)))%Z
        with (n + 1 + Z.of_nat (List.length (created_ids xs))
              + Z.of_nat (List.length (filter server_failed xs)))%Z by lia.
      split; [now rewrite A, <- app_assoc|].
      split; [exact B|]. split; [lia | exact D].
Qed.


(** X4.  While the counter counts exactly, it holds 1010 plus the number
    of orders created so far plus the number of requests answered 500: a
    creation that fails on a [null] item has taken a number all the
    same. *)
Theorem counter_counts_created reqs :
  (Z.of_nat (List.length reqs) <= two_53 - 1010)%Z ->
  nextOrderNumericId (snd (serve reqs initial_state))
  = float_of_Z
      (1010
       + Z.of_nat (List.length (created_ids (fst (serve reqs initial_state))))
       + Z.of_nat (List.length
                     (filter server_failed (fst (serve reqs initial_state))))).
Proof.
  intros Hb.
  destruct (serve_registry reqs initial_state 1010) as (_ & Hc & _);
    [reflexivity | lia | lia | constructor | constructor |].
  exact Hc.
Qed.

(** X5.  While the counter counts exactly, creating an order overwrites
    none: every order stored before a create is stored unchanged after
    it. *)
Theorem create_keeps_stored_orders reqs req k o :
  (Z.of_nat (List.length reqs) < two_53 - 1010)%Z ->
  let st := snd (serve reqs initial_state) in
  Map_get k (inMemoryOrders st) = Some o ->
  Map_get k (inMemoryOrders (snd (create_order req st))) = Some o.
Proof.
  intros Hb st Hk.
  destruct (serve_registry reqs initial_state 1010) as (_ & Hc & Hle & Hkeys);
    [reflexivity | lia | lia | constructor | constructor |].
  fold st in Hc, Hkeys.
  set (n := (1010
             + Z.of_nat (List.length
                           (created_ids (fst (serve reqs initial_state))))
             + Z.of_nat (List.length
                           (filter server_failed
                              (fst (serve reqs initial_state)))))%Z) in *.
  destruct (create_order_cases req st)
    as [(Hv & E)|[(Hv & Hnull & E)|(Hv & _ & o0 & Ho & E)]]; rewrite E;
    cbn [snd inMemoryOrders]; try assumption.
  rewrite (new_order_id _ _ _ Ho).
  rewrite Hc, Number_toString_integer by lia. fold (order_id n).
  rewrite Map_get_set_other; [assumption|].
  intros <-. apply issued_below_fresh in Hkeys.
  assert (includes (Map_keys (inMemoryOrders st)) (order_id n) = true)
    by (apply includes_keys_get; congruence).
  congruence.
Qed.

(** *** Mutations and the orders they do not address *)

Lemma served_NoDup_keys reqs :
  forall st,
    NoDup (Map_keys (inMemoryOrders st)) ->
    NoDup (Map_keys (inMemoryOrders (snd (serve reqs st)))).
Proof.
  induction reqs as [|r reqs IH]; intros st Hst; simpl; [assumption|].
  assert (H : NoDup (Map_keys (inMemoryOrders (snd (handle r st))))).
  { destruct (handle_registry r st)
      as [->|[(k1 & v1 & ->)|(k1 & v1 & k2 & v2 & ->)]];
      repeat apply Map_keys_set_NoDup; assumption. }
  destruct (handle r st) as [x st']. specialize (IH st' H).
  now destruct (serve reqs st').
Qed.

(** An accepted mutation changes the entry it addresses and no other. *)
Lemma mutate_accepted_get op st o o' k :
  keys_match (inMemoryOrders st) ->
  Map_get (target op) (inMemoryOrders st) = Some o ->
  applied op o = Some o' ->
  Map_get k (inMemoryOrders (snd (mutate op st)))
  = if String.eqb (target op) k then Some o'
    else Map_get k (inMemoryOrders st).
Proof.
  intros Hm Ho Ha. rewrite (mutate_accepts _ _ _ _ Ho Ha). simpl.
  apply restore_get with o; eauto using applied_fixed_fields.
Qed.

(** X6.  An order that is past pickup (its status is none of pending,
    confirmed, preparing) is out of reach of assign and
    accept-by-restaurant: along any run of these two operations the
    stored order stays exactly as it is. *)
Theorem picked_up_orders_are_frozen reqs ops k o :
  let st := snd (serve reqs initial_state) in
  Map_get k (inMemoryOrders st) = Some o ->
  includes available_statuses (status o) = false ->
  forallb guarded ops = true ->
  Map_get k (inMemoryOrders (run ops st)) = Some o.
Proof.
  intros st Hk Hs Hg.
  assert (Hm : keys_match (inMemoryOrders st))
    by (apply served_keys_match; constructor).
  clearbody st. revert st Hk Hm.
  induction ops as [|op ops IH]; intros st Hk Hm; simpl; [assumption|].
  simpl in Hg. apply andb_prop in Hg as [Hg Hgs].
  apply IH; [assumption| |now apply mutate_step].
  destruct (mutate_either op st) as [(o0 & o' & Ho & Ha & _)|(E & _)].
  - rewrite (mutate_accepted_get _ _ _ _ k Hm Ho Ha).
    destruct (String.eqb (target op) k) eqn:E; [|assumption].
    apply String.eqb_eq in E. subst k.
    assert (o0 = o) by congruence. subst o0.
    rewrite (applied_guarded _ _ _ Hg Ha) in Hs. discriminate.
  - now rewrite E.
Qed.

(** X7.  Update-status is last-writer-wins: an accepted update leaves
    the registry as it would have without the update-status request that
    came just before it for the same order, whatever that one asked for. *)
Theorem update_status_last_wins reqs k v1 s2 :
  let st := snd (serve reqs initial_state) in
  In s2 order_statuses ->
  inMemoryOrders
    (snd (update_status k (Some s2) (snd (update_status k v1 st))))
  = inMemoryOrders (snd (update_status k (Some s2) st)).
Proof.
  intros st H2. apply includes_In in H2.
  assert (Hm : keys_match (inMemoryOrders st))
    by (apply served_keys_match; constructor).
  destruct (isIn order_statuses v1) eqn:H1.
  2:{ now rewrite (update_status_invalid k v1 st H1). }
  destruct v1 as [s1|]; [|discriminate H1].
  change (includes order_statuses s1 = true) in H1.
  destruct (Map_get k (inMemoryOrders st)) as [o|] eqn:Hk.
  - pose proof (keys_match_get _ _ _ Hm Hk) as Hid.
    rewrite (update_status_present _ _ _ st H1 Hk). cbv zeta.
    erewrite update_status_present; [|exact H2|].
    2:{ simpl. rewrite Map_get_set, Map_get_set_same.
        now destruct (String.eqb (id o) k). }
    rewrite (update_status_present _ _ _ st H2 Hk). simpl.
    rewrite Hid. now rewrite !Map_set_set.
  - rewrite (update_status_absent _ _ st H1 Hk). simpl.
    reflexivity.
Qed.

(** *** The available list and assignment *)

Lemma keys_match_In_key m o :
  keys_match m -> In o (Map_values m) -> In (id o) (Map_keys m).
Proof.
  unfold keys_match, Map_values, Map_keys. intros Hm Ho.
  apply in_map_iff in Ho as ([k v] & <- & Hkv).
  rewrite Forall_forall in Hm. specialize (Hm _ Hkv). simpl in *.
  rewrite <- Hm. apply in_map_iff. now exists (k, v).
Qed.

Lemma values_get m o :
  keys_match m -> NoDup (Map_keys m) ->
  In o (Map_values m) <-> Map_get (id o) m = Some o.
Proof.
  intros Hm Hn. induction m as [|[k v] m IH]; simpl.
  - split; [intros [] | discriminate].
  - inversion Hm as [|? ? Hkv Hm']; subst. inversion Hn as [|? ? Hk Hn']; subst.
    simpl in Hkv. subst k. specialize (IH Hm' Hn').
    destruct (String.eqb (id o) (id v)) eqn:E.
    + split; [|intros [= ->]; now left].
      intros [->|Ho]; [reflexivity|].
      apply String.eqb_eq in E. apply keys_match_In_key in Ho; [|assumption].
      rewrite E in Ho. contradiction.
    + rewrite <- IH. split; [|now right].
      intros [->|Ho]; [|assumption]. now rewrite String.eqb_refl in E.
Qed.

Lemma assign_status k u st o :
  Map_get k (inMemoryOrders st) = Some o ->
  statusCode (fst (assign k u st)) = 200
  <-> includes available_statuses (status o) = true.
Proof.
  intros Hk. destruct (includes available_statuses (status o)) eqn:E.
  - rewrite (assign_available _ u _ _ Hk E). simpl. tauto.
  - rewrite (assign_unavailable _ u _ _ Hk E). simpl.
    split; discriminate.
Qed.

(** X8.  [GET /available/list] answers with exactly the stored orders
    that assign accepts: an order is on the list if and only if it is
    stored and assigning it (to any caller) is answered 200. *)
Theorem available_list_is_what_assign_accepts reqs o u :
  let st := snd (serve reqs initial_state) in
  list_available st = (mkResponse 200 (BodyOrders (available_orders st)), st)
  /\ (In o (available_orders st)
      <-> Map_get (id o) (inMemoryOrders st) = Some o
          /\ statusCode (fst (assign (id o) u st)) = 200).
Proof.
  intros st. split; [reflexivity|].
  assert (Hm : keys_match (inMemoryOrders st))
    by (apply served_keys_match; constructor).
  assert (Hn : NoDup (Map_keys (inMemoryOrders st)))
    by (apply served_NoDup_keys; constructor).
  unfold available_orders. rewrite filter_In, (values_get _ _ Hm Hn).
  split.
  - intros (Hk & Hs). split; [assumption|]. now apply (assign_status _ u _ _ Hk).
  - intros (Hk & Hs). split; [assumption|]. now apply (assign_status _ u _ _ Hk).
Qed.

Lemma Map_values_set m k o o' :
  keys_match m -> NoDup (Map_keys m) ->
  Map_get k m = Some o ->
  Map_values (Map_set k o' m)
  = map (fun x => if String.eqb (id x) k then o' else x) (Map_values m).
Proof.
  intros Hm Hn. induction m as [|[k0 v] m IH]; simpl; [discriminate|].
  inversion Hm as [|? ? Hkv Hm']; subst. inversion Hn as [|? ? Hk0 Hn']; subst.
  simpl in Hkv. subst k0.
  rewrite (String.eqb_sym (id v) k).
  destruct (String.eqb k (id v)) eqn:E; simpl.
  - intros _. f_equal. apply String.eqb_eq in E. subst k.
    unfold Map_values. rewrite <- (map_id (map snd m)) at 1.
    apply map_ext_in. intros x Hx.
    destruct (String.eqb (id x) (id v)) eqn:Ex; [|reflexivity].
    apply String.eqb_eq in Ex. apply (keys_match_In_key _ _ Hm') in Hx.
    rewrite Ex in Hx. contradiction.
  - intros Hk. f_equal. now apply IH.
Qed.

Lemma filter_available_replaced k o' l :
  includes available_statuses (status o') = false ->
  filter (fun o => includes available_statuses (status o))
    (map (fun x => if String.eqb (id x) k then o' else x) l)
  = filter (fun x => negb (String.eqb (id x) k))
      (filter (fun o => includes available_statuses (status o)) l).
Proof.
  intros Ho'. induction l as [|x l IH]; [reflexivity|].
  cbn [map filter]. destruct (String.eqb (id x) k) eqn:E.
  - rewrite Ho', IH.
    destruct (includes available_statuses (status x)); [|reflexivity].
    cbn [filter]. now rewrite E.
  - rewrite IH.
    destruct (includes available_statuses (status x)); [|reflexivity].
    cbn [filter]. now rewrite E.
Qed.

(** X9.  An accepted assign takes the order off the available list and
    leaves the rest of the list as it was, in the same order. *)
Theorem assign_takes_order_off_available_list reqs k u o :
  let st := snd (serve reqs initial_state) in
  Map_get k (inMemoryOrders st) = Some o ->
  includes available_statuses (status o) = true ->
  available_orders (snd (assign k u st))
  = filter (fun x => negb (String.eqb (id x) k)) (available_orders st).
Proof.
  intros st Hk Hs.
  assert (Hm : keys_match (inMemoryOrders st))
    by (apply served_keys_match; constructor).
  assert (Hn : NoDup (Map_keys (inMemoryOrders st)))
    by (apply served_NoDup_keys; constructor).
  rewrite (assign_available _ u _ _ Hk Hs). unfold available_orders. simpl.
  rewrite (keys_match_get _ _ _ Hm Hk), Map_set_set.
  rewrite (Map_values_set _ _ o _ Hm Hn Hk).
  now apply filter_available_replaced.
Qed.

(** *** Events *)

(** X10.  A mutation that is answered 200 broadcasts exactly one frame,
    of the mutation's event type and carrying the very order of the
    response, which is also the order now stored under the identifier
    addressed; a mutation answered otherwise changes nothing at all.  A
    create answered 201 likewise broadcasts one [order_created] frame
    carrying the order of the response, which is the order now stored
    under its identifier; a create answered 400 changes nothing at all; a
    create answered 500 stores and broadcasts nothing but has advanced
    the counter; and a create is answered nothing else. *)
Theorem writes_publish_what_they_answer st :
  (forall op,
      (forall o,
          fst (mutate op st) = mkResponse 200 (BodyOrder o) ->
          sseClients (snd (mutate op st))
          = map (delivered (frame (event_type op) o)) (sseClients st)
          /\ Map_get (target op) (inMemoryOrders (snd (mutate op st)))
             = Some o)
      /\ (statusCode (fst (mutate op st)) <> 200 -> snd (mutate op st) = st))
  /\ (forall req,
        (forall o,
            fst (create_order req st) = mkResponse 201 (BodyOrder o) ->
            sseClients (snd (create_order req st))
            = map (delivered (frame "order_created" o)) (sseClients st)
            /\ Map_get (id o) (inMemoryOrders (snd (create_order req st)))
               = Some o)
        /\ (statusCode (fst (create_order req st)) = 400 ->
            snd (create_order req st) = st)
        /\ (statusCode (fst (create_order req st)) = 500 ->
            snd (create_order req st)
            = mkState (inMemoryOrders st) (nextOrderNumericId st + 1)%float
                (sseClients st))
        /\ In (statusCode (fst (create_order req st))) [201; 400; 500]%nat).
Proof.
  split.
  - intros op.
    destruct (mutate_either op st) as [(o0 & o' & Ho & Ha & E)|(E & Hc)].
    + rewrite E. simpl. split; [|congruence].
      intros o [= <-]. split; [reflexivity|].
      rewrite Map_get_set, Map_get_set_same.
      now destruct (String.eqb (id o') (target op)).
    + split; [|auto]. intros o Ho. rewrite Ho in Hc. simpl in Hc.
      destruct Hc; discriminate.
  - intros req.
    destruct (create_order_cases req st)
      as [(Hv & E)|[(Hv & Hnull & E)|(Hv & _ & o0 & Ho & E)]]; rewrite E;
      cbn [fst snd statusCode inMemoryOrders sseClients].
    + split; [discriminate|]. split; [reflexivity|].
      split; [discriminate | simpl; auto].
    + split; [discriminate|]. split; [discriminate|].
      split; [reflexivity | simpl; auto].
    + split.
      { intros o [= <-]. split; [reflexivity | apply Map_get_set_same]. }
      split; [discriminate|]. split; [discriminate | simpl; auto].
Qed.

(** *** Subscriptions *)

Lemma Set_delete_absent rid s : Set_has rid s = false -> Set_delete rid s = s.
Proof.
  unfold Set_has, Set_delete. induction s as [|r s IH]; simpl; [reflexivity|].
  intros H. apply orb_false_elim in H as [Hr Hs]. rewrite Hr. simpl.
  now rewrite IH.
Qed.

(** X11.  A connect and disconnect cycle leaves no trace: opening an
    event stream on a fresh, writable response and closing it again
    gives back the state there was; in between, the response is
    registered last, with the connection comment as its only new
    output. *)
Theorem subscribe_then_close_restores st res :
  res_writable res = true ->
  Set_has (res_id res) (sseClients st) = false ->
  let hello := ": connected" ++ nl ++ nl in
  sseClients (snd (events res st))
  = (sseClients st
       ++ [mkRes (res_id res) true (res_written res ++ [hello])])%list
  /\ snd (events_close (res_id res) (snd (events res st))) = st.
Proof.
  intros Hw Hf hello. unfold events, res_write. rewrite Hw. simpl.
  unfold Set_add. simpl. rewrite Hf. split; [reflexivity|].
  unfold events_close. simpl. unfold Set_delete.
  rewrite filter_app. simpl. rewrite Nat.eqb_refl. simpl.
  rewrite app_nil_r. fold (Set_delete (res_id res) (sseClients st)).
  rewrite Set_delete_absent by assumption. now destruct st.
Qed.

Lemma published_refused r x :
  statusCode x = 400 \/ statusCode x = 404 -> published r (Some x) = [].
Proof.
  intros H. destruct x as [c b]. simpl in H.
  destruct r; simpl; try reflexivity; destruct b; try reflexivity;
    destruct H as [-> | ->]; reflexivity.
Qed.

(** One request, seen from a registered client whose stream stays open. *)
Lemma handle_delivers r st res :
  In res (sseClients st) ->
  res_writable res = true ->
  stays_open (res_id res) [r] = true ->
  exists res',
    In res' (sseClients (snd (handle r st)))
    /\ res_id res' = res_id res
    /\ res_writable res' = true
    /\ res_written res'
       = (res_written res ++ published r (fst (handle r st)))%list.
Proof.
  intros Hin Hw Hopen.
  assert (Hquiet : forall x st',
             handle r st = (x, st') -> sseClients st' = sseClients st ->
             published r x = [] ->
             exists res',
               In res' (sseClients (snd (handle r st)))
               /\ res_id res' = res_id res
               /\ res_writable res' = true
               /\ res_written res'
                  = (res_written res ++ published r (fst (handle r st)))%list).
  { intros x st' E Hc Hp. rewrite E. simpl. rewrite Hp, Hc, app_nil_r. eauto. }
  assert (Hsame : forall x,
             handle r st = (x, st) -> published r x = [] ->
             exists res',
               In res' (sseClients (snd (handle r st)))
               /\ res_id res' = res_id res
               /\ res_writable res' = true
               /\ res_written res'
                  = (res_written res ++ published r (fst (handle r st)))%list).
  { intros x E Hp. now apply Hquiet with x st. }
  assert (Hsent : forall x st' data,
             handle r st = (x, st') -> published r x = [data] ->
             sseClients st' = map (delivered data) (sseClients st) ->
             exists res',
               In res' (sseClients (snd (handle r st)))
               /\ res_id res' = res_id res
               /\ res_writable res' = true
               /\ res_written res'
                  = (res_written res ++ published r (fst (handle r st)))%list).
  { intros x st' data E Hp Hc. rewrite E. simpl. rewrite Hp, Hc.
    exists (delivered data res). split; [now apply in_map|].
    unfold delivered. rewrite Hw. auto. }
  destruct r as [|req|i|op| |res0|rid].
  - now apply Hsame with (x := Some (fst (list_orders st))).
  - cbn [handle].
    destruct (create_order_cases req st)
      as [(Hv & E)|[(Hv & Hnull & E)|(Hv & _ & o & Ho & E)]].
    + eapply Hsame; [cbn [handle]; rewrite E; reflexivity | reflexivity].
    + eapply Hquiet;
        [cbn [handle]; rewrite E; reflexivity | reflexivity | reflexivity].
    + eapply Hsent;
        [cbn [handle]; rewrite E; reflexivity | reflexivity | reflexivity].
  - eapply Hsame; [cbn [handle]; rewrite get_order_eq; reflexivity|].
    reflexivity.
  - destruct (mutate_either op st) as [(o & o' & _ & _ & E)|(E & Hc)].
    + eapply Hsent;
        [cbn [handle]; rewrite E; reflexivity | reflexivity | reflexivity].
    + destruct (mutate op st) as [x st'] eqn:Em. simpl in E, Hc. subst st'.
      eapply Hsame; [cbn [handle]; rewrite Em; reflexivity|].
      now apply published_refused.
  - now apply Hsame with (x := Some (fst (list_available st))).
  - cbn [handle published fst snd]. rewrite app_nil_r.
    exists res. split; [|auto].
    unfold events. destruct (res_write res0 _) as [res1|]; [|assumption].
    simpl. unfold Set_add.
    destruct (Set_has (res_id res1) (sseClients st)); [assumption|].
    apply in_or_app. now left.
  - cbn [handle published fst snd]. rewrite app_nil_r.
    exists res. split; [|auto]. simpl. unfold Set_delete.
    apply filter_In. split; [assumption|].
    simpl in Hopen. rewrite andb_true_r in Hopen. now rewrite Nat.eqb_sym.
Qed.

(** X12.  A registered client whose writes succeed and whose stream is
    not closed receives, in the order of the requests, exactly one frame
    for each create answered 201 and each mutation answered 200, and
    nothing for any other request. *)
Theorem subscriber_receives_events_in_order reqs :
  forall st res,
    In res (sseClients st) ->
    res_writable res = true ->
    stays_open (res_id res) reqs = true ->
    exists res',
      In res' (sseClients (snd (serve reqs st)))
      /\ res_id res' = res_id res
      /\ res_writable res' = true
      /\ res_written res'
         = (res_written res ++ published_all reqs (fst (serve reqs st)))%list.
Proof.
  induction reqs as [|r reqs IH]; intros st res Hin Hw Hopen.
  - exists res. simpl. rewrite app_nil_r. auto.
  - cbn [stays_open forallb] in Hopen. apply andb_prop in Hopen as [Hr Hrs].
    destruct (handle_delivers r st res Hin Hw) as (res1 & Hin1 & Hid1 & Hw1 & Hs1).
    { cbn [stays_open forallb]. now rewrite Hr. }
    cbn [serve]. destruct (handle r st) as [x st1]. cbn [fst snd] in *.
    destruct (IH st1 res1 Hin1 Hw1) as (res2 & Hin2 & Hid2 & Hw2 & Hs2).
    { now rewrite Hid1. }
    destruct (serve reqs st1) as [xs st2]. cbn [fst snd published_all] in *.
    exists res2. split; [assumption|]. split; [congruence|].
    split; [assumption|]. now rewrite Hs2, Hs1, <- app_assoc.
Qed.

(** *** The payout is a whole number, never below 30 *)














(** X15.  Mutations never add, remove or reorder orders: after any
    update-status, assign or accept-by-restaurant, accepted or refused,
    [GET /] lists the same identifiers in the same order as before. *)
Theorem mutations_keep_the_listing reqs op :
  let st := snd (serve reqs initial_state) in
  map id (Map_values (inMemoryOrders (snd (mutate op st))))
  = map id (Map_values (inMemoryOrders st)).
Proof.
  intros st.
  assert (Hm : keys_match (inMemoryOrders st))
    by (apply served_keys_match; constructor).
  pose proof (proj1 (mutate_step op st Hm)) as Hm'.
  rewrite !keys_match_ids by assumption.
  destruct (mutate_either op st) as [(o & o' & Ho & Ha & E)|(E & _)].
  - rewrite E. simpl.
    pose proof (applied_fixed_fields _ _ _ Ha) as Hf.
    rewrite (fixed_fields_id _ _ Hf), (keys_match_get _ _ _ Hm Ho).
    rewrite Map_set_set, Map_keys_set.
    assert (Hin : includes (Map_keys (inMemoryOrders st)) (target op) = true)
      by (apply includes_keys_get; congruence).
    now rewrite Hin.
  - now rewrite E.
Qed.


(** *** Where stored orders come from *)

Lemma stems_from_app h1 h2 k o :
  stems_from h1 k o -> stems_from (h1 ++ h2) k o.
Proof.
  intros (req & o0 & Hin & Hv & Ho & Hf). exists req, o0.
  split; [|now split]. apply in_or_app. now left.
Qed.

Lemma handle_stems r st h :
  keys_match (inMemoryOrders st) ->
  (forall k o, Map_get k (inMemoryOrders st) = Some o -> stems_from h k o) ->
  forall k o,
    Map_get k (inMemoryOrders (snd (handle r st))) = Some o ->
    stems_from (h ++ [r]) k o.
Proof.
  intros Hm Hst.
  assert (Hold : forall k o, Map_get k (inMemoryOrders st) = Some o ->
                             stems_from (h ++ [r]) k o)
    by (intros; now apply stems_from_app, Hst).
  destruct r as [|req|i|op| |res|rid]; simpl; auto.
  - destruct (create_order_cases req st)
      as [(Hv & E)|[(Hv & Hnull & E)|(Hv & _ & o0 & Ho & E)]]; rewrite E;
      cbn [snd inMemoryOrders]; try exact Hold.
    intros k o. rewrite (new_order_id _ _ _ Ho), Map_get_set.
    destruct (String.eqb _ k) eqn:Ek; [|apply Hold].
    apply String.eqb_eq in Ek. intros [= <-]. exists req, o0.
    split; [apply in_or_app; right; now left|]. split; [assumption|].
    subst k. split; [exact Ho | reflexivity].
  - now rewrite get_order_eq.
  - destruct (mutate_either op st) as [(o0 & o' & Hk & Ha & E)|(E & _)].
    + rewrite E. cbn [snd inMemoryOrders]. intros k o.
      pose proof (applied_fixed_fields _ _ _ Ha) as Hf.
      pose proof (keys_match_get _ _ _ Hm Hk) as Hid.
      rewrite (fixed_fields_id _ _ Hf), Hid, Map_set_set, Map_get_set.
      destruct (String.eqb (target op) k) eqn:Ek; [|apply Hold].
      apply String.eqb_eq in Ek. intros [= <-].
      destruct (Hold _ _ Hk) as (req & o1 & Hin & Hv & Ho1 & Hf0).
      exists req, o1. split; [assumption|]. split; [assumption|].
      rewrite Hf, <- Ek. split; [exact Ho1 | exact Hf0].
    + destruct (mutate op st). simpl in *. subst. apply Hold.
  - unfold events. destruct (res_write res _); apply Hold.
Qed.

Lemma serve_stems reqs :
  forall st h,
    keys_match (inMemoryOrders st) ->
    (forall k o, Map_get k (inMemoryOrders st) = Some o -> stems_from h k o) ->
    forall k o,
      Map_get k (inMemoryOrders (snd (serve reqs st))) = Some o ->
      stems_from (h ++ reqs) k o.
Proof.
  induction reqs as [|r reqs IH]; intros st h Hm Hst; simpl.
  - rewrite app_nil_r. exact Hst.
  - pose proof (handle_stems r st h Hm Hst) as Hst'.
    pose proof (handle_keys_match r st Hm) as Hm'.
    destruct (handle r st) as [x st']. simpl in Hst', Hm'.
    specialize (IH st' (h ++ [r])%list Hm' Hst').
    rewrite <- app_assoc in IH. simpl in IH.
    now destruct (serve reqs st').
Qed.

(** X17.  Every stored order stems from a creation: it was built by a
    valid creation request among those served, under the key it is
    stored under, and but for its status and its driver it still is what
    that request built.  In particular it has at least one item, none of
    its items is [null], and its payout amount is the one computed from
    the items it holds. *)
Theorem stored_orders_stem_from_creations reqs k o :
  Map_get k (inMemoryOrders (snd (serve reqs initial_state))) = Some o ->
  exists req o0,
    In (CreateOrder req) reqs
    /\ validate_create (create_body req) = []
    /\ new_order req k = Normal o0
    /\ fixed_fields o = fixed_fields o0
    /\ items o <> []
    /\ all_objects (items o) = true
    /\ payout (items o) = Normal (payoutAmount o).
Proof.
  intros Hk.
  destruct (serve_stems reqs initial_state [] (Forall_nil _)
              (fun k o (H : Map_get k [] = Some o) =>
                 ltac:(discriminate H)) k o Hk)
    as (req & o0 & Hin & Hv & Ho & Hf).
  exists req, o0. split; [exact Hin|]. split; [exact Hv|].
  split; [exact Ho|]. split; [exact Hf|].
  unfold fixed_fields in Hf. injection Hf as _ _ _ _ _ Hi _ _ _ _ Hp _ _ _ _.
  destruct (new_order_Normal _ _ _ Ho) as (_ & _ & _ & Hi0 & Hp0).
  rewrite Hp, Hi. split; [|split; [|exact Hp0]].
  - rewrite Hi0. unfold validate_create in Hv.
    destruct (body_items (create_body req)); [discriminate Hv|discriminate].
  - destruct (payout_cases (items o0)) as [(H & _)|(_ & e & He)];
      [exact H | congruence].
Qed.

End Router.

(** ** The category carousel *)

Lemma carousel_index_cases (i : Z) :
  (0 <= i < Carousel.categories_length)%Z ->
  i = 0%Z \/ i = 1%Z \/ i = 2%Z \/ i = 3%Z \/ i = 4%Z.
Proof. unfold Carousel.categories_length. simpl. lia. Qed.

Lemma carousel_click_range (a : Carousel.Arrow) (i : Z) :
  (0 <= i < Carousel.categories_length)%Z ->
  (0 <= Carousel.click a i < Carousel.categories_length)%Z.
Proof.
  intros H.
  destruct (carousel_index_cases i H) as [->|[->|[->|[->| ->]]]];
    destruct a; vm_compute; intuition discriminate.
Qed.

Lemma carousel_clicks_range (l : list Carousel.Arrow) :
  forall i,
    (0 <= i < Carousel.categories_length)%Z ->
    (0 <= Carousel.clicks l i < Carousel.categories_length)%Z.
Proof.
  induction l as [|a l IH]; intros i H; [exact H|].
  apply (IH (Carousel.click a i)), carousel_click_range, H.
Qed.

Lemma carousel_reachable_range (l : list Carousel.Arrow) :
  (0 <= Carousel.clicks l Carousel.initial_index
   < Carousel.categories_length)%Z.
Proof. apply carousel_clicks_range. vm_compute. intuition discriminate. Qed.

(** X18.  The carousel never leaves the array: after any sequence of
    clicks on the arrows, starting from the initial index 2, the index is
    a position of [categories], and so is every position the slider
    shows. *)
Theorem carousel_index_stays_in_range (l : list Carousel.Arrow) :
  let index := Carousel.clicks l Carousel.initial_index in
  (0 <= index < Carousel.categories_length)%Z
  /\ Forall (fun i => (0 <= i < Carousel.categories_length)%Z)
       (Carousel.visibleItems index).
Proof.
  intros index. pose proof (carousel_reachable_range l) as H.
  fold index in H. split; [exact H|].
  destruct (carousel_index_cases index H) as [->|[->|[->|[->| ->]]]];
    repeat constructor; vm_compute; discriminate.
Qed.

(** X19.  The two arrows undo each other, and the carousel has period
    five: on every index the component reaches, left after right and
    right after left give the index back, and so do five clicks on the
    same arrow. *)
Theorem carousel_arrows_are_inverse (l : list Carousel.Arrow) :
  let index := Carousel.clicks l Carousel.initial_index in
  Carousel.prevSlide (Carousel.nextSlide index) = index
  /\ Carousel.nextSlide (Carousel.prevSlide index) = index
  /\ Carousel.clicks (repeat Carousel.Right 5) index = index
  /\ Carousel.clicks (repeat Carousel.Left 5) index = index.
Proof.
  intros index. pose proof (carousel_reachable_range l) as H.
  fold index in H.
  destruct (carousel_index_cases index H) as [->|[->|[->|[->| ->]]]];
    repeat split; reflexivity.
Qed.

(** X20.  The slider always renders, and shows every category exactly
    once with the current one in the middle: on every index the component
    reaches there are five cards, their keys are pairwise distinct, the
    third card is that of the current index and is the only [main] one,
    and every category of the array is the caption of a card. *)
Theorem carousel_shows_every_category_once (l : list Carousel.Arrow) :
  let index := Carousel.clicks l Carousel.initial_index in
  exists cards,
    Carousel.slider index = Some cards
    /\ NoDup (map Carousel.key cards)
    /\ map Carousel.className cards
       = ["category side"; "category side"; "category main";
          "category side"; "category side"]
    /\ option_map Carousel.key (nth_error cards 2) = Some index
    /\ incl (map Carousel.name Carousel.categories)
         (map Carousel.caption cards).
Proof.
  intros index. pose proof (carousel_reachable_range l) as H.
  fold index in H.
  destruct (carousel_index_cases index H) as [->|[->|[->|[->| ->]]]];
    (eexists; split; [reflexivity|]; split;
     [repeat constructor; simpl; intuition discriminate
     |split; [reflexivity|]; split; [reflexivity|];
      intros x Hx; simpl in Hx |- *; tauto]).
Qed.

(** ** The properties on sample data *)

(** The sample order is the one the router creates first. *)
Lemma sample_order_created :
  create_order Sample.to_number Sample.to_string Sample.stringify
    (Sample.request_of [Sample.pizzas]) initial_state
  = (mkResponse 201 (BodyOrder Sample.order), Sample.placed).
Proof. reflexivity. Qed.

(** C1, as stated, fails: an order created and then set to delivered is
    back to pending after one more update-status request, a move that is
    not forward. *)
Lemma update_status_regresses :
  let st :=
    snd (serve Sample.to_number Sample.to_string Sample.stringify
           [CreateOrder (Sample.request_of [Sample.pizzas]);
            Mutate (UpdateStatus "ORD-1010" (Some "delivered"))]
           initial_state) in
  Map_get "ORD-1010" (inMemoryOrders st)
  = Some (set_status "delivered" Sample.order)
  /\ Map_get "ORD-1010"
       (inMemoryOrders
          (run Sample.stringify [UpdateStatus "ORD-1010" (Some "pending")] st))
     = Some (set_status "pending" Sample.order)
  /\ moves_forward "delivered" "pending" = false.
Proof. repeat split. Qed.

(** A new order accepted, assigned and offered for acceptance again; and
    the same order cancelled by update-status. *)
Lemma guarded_mutations_move_forward_witness :
  let st :=
    snd (serve Sample.to_number Sample.to_string Sample.stringify
           [CreateOrder (Sample.request_of [Sample.pizzas])] initial_state) in
  (exists o',
      Map_get "ORD-1010"
        (inMemoryOrders
           (run Sample.stringify
              [AcceptRestaurant "ORD-1010"; Assign "ORD-1010" (Some Sample.ravi);
               AcceptRestaurant "ORD-1010"]
              st))
      = Some o'
      /\ advances "pending" (status o') = true)
  /\ (exists o',
        Map_get "ORD-1010"
          (inMemoryOrders
             (snd (update_status Sample.stringify "ORD-1010" (Some "cancelled")
                     st)))
        = Some o'
        /\ status o' = "cancelled").
Proof.
  intros st.
  destruct (guarded_mutations_move_forward Sample.to_number Sample.to_string Sample.stringify
              [CreateOrder (Sample.request_of [Sample.pizzas])]
              "ORD-1010" Sample.order eq_refl) as [Hrun Hupdate].
  split.
  - apply Hrun. reflexivity.
  - apply Hupdate. simpl. auto 10.
Defined.

(** Three mutations of a new order: its payout amount is still 100. *)
Lemma mutations_keep_fixed_fields_witness :
  exists o',
    Map_get "ORD-1010"
      (inMemoryOrders
         (run Sample.stringify
            [UpdateStatus "ORD-1010" (Some "preparing");
             AcceptRestaurant "ORD-1010";
             UpdateStatus "ORD-1010" (Some "cancelled")]
            (snd (serve Sample.to_number Sample.to_string Sample.stringify
                    [CreateOrder (Sample.request_of [Sample.pizzas])]
                    initial_state))))
    = Some o'
    /\ payoutAmount o' = 100%float
    /\ fixed_fields o' = fixed_fields Sample.order
    /\ (false = false -> driver o' = None).
Proof.
  exact (mutations_keep_fixed_fields Sample.to_number Sample.to_string Sample.stringify
           [CreateOrder (Sample.request_of [Sample.pizzas])]
           "ORD-1010" Sample.order
           [UpdateStatus "ORD-1010" (Some "preparing");
            AcceptRestaurant "ORD-1010";
            UpdateStatus "ORD-1010" (Some "cancelled")]
           eq_refl).
Defined.

(** The specification's instance of C3: assigning a delivered order is
    refused, assigning a pending one succeeds and records the caller;
    a caller without [_id] and name is recorded by its [id] and as
    [Driver]. *)
Lemma assign_outcomes_witness :
  assign Sample.stringify "ORD-1010" (Some Sample.ravi) Sample.delivered
  = (mkResponse 400 (BodyError "Order is not available for assignment"),
     Sample.delivered)
  /\ assign Sample.stringify "ORD-404" (Some Sample.ravi) Sample.placed
     = (not_found, Sample.placed)
  /\ (exists o',
       fst (assign Sample.stringify "ORD-1010" (Some Sample.ravi) Sample.placed)
       = mkResponse 200 (BodyOrder o')
       /\ status o' = "out_for_delivery"
       /\ driver o' = Some (mkDriver (Some "d7") "Ravi")
       /\ fixed_fields o' = fixed_fields Sample.order
       /\ Map_get "ORD-1010"
            (inMemoryOrders
               (snd (assign Sample.stringify "ORD-1010" (Some Sample.ravi)
                       Sample.placed)))
          = Some o')
  /\ exists o',
       fst (assign Sample.stringify "ORD-1010"
              (Some (mkUser (Some "") (Some "d9") None None)) Sample.placed)
       = mkResponse 200 (BodyOrder o')
       /\ status o' = "out_for_delivery"
       /\ driver o' = Some (mkDriver (Some "d9") "Driver")
       /\ fixed_fields o' = fixed_fields Sample.order
       /\ Map_get "ORD-1010"
            (inMemoryOrders
               (snd (assign Sample.stringify "ORD-1010"
                       (Some (mkUser (Some "") (Some "d9") None None))
                       Sample.placed)))
          = Some o'.
Proof.
  split; [|split; [|split]].
  - exact (assign_outcomes Sample.stringify "ORD-1010" (Some Sample.ravi)
             Sample.delivered).
  - exact (assign_outcomes Sample.stringify "ORD-404" (Some Sample.ravi)
             Sample.placed).
  - exact (assign_outcomes Sample.stringify "ORD-1010" (Some Sample.ravi)
             Sample.placed).
  - exact (assign_outcomes Sample.stringify "ORD-1010"
             (Some (mkUser (Some "") (Some "d9") None None)) Sample.placed).
Defined.

(** The new order accepted twice. *)
Lemma accept_restaurant_twice_witness :
  let st1 := snd (accept_restaurant Sample.stringify "ORD-1010" Sample.placed) in
  fst (accept_restaurant Sample.stringify "ORD-1010" Sample.placed)
  = mkResponse 200 (BodyOrder (set_status "confirmed" Sample.order))
  /\ Map_get "ORD-1010" (inMemoryOrders st1)
     = Some (set_status "confirmed" Sample.order)
  /\ accept_restaurant Sample.stringify "ORD-1010" st1
     = (mkResponse 400 (BodyError "Order cannot be accepted"), st1).
Proof.
  exact (accept_restaurant_twice Sample.stringify "ORD-1010" Sample.order
           Sample.placed eq_refl eq_refl).
Defined.

(** The specification's instance of C5: the status [shipped]. *)
Lemma update_status_rejects_unknown_witness :
  update_status Sample.stringify "ORD-1010" (Some "shipped") Sample.placed
  = (mkResponse 400 (BodyErrors ["Invalid order status"]), Sample.placed).
Proof.
  apply update_status_rejects_unknown.
  intros s [= <-]. simpl. intuition discriminate.
Defined.



(** Three creations among other requests, one of them refused. *)
Lemma sample_created_ids :
  created_ids
    (fst (serve Sample.to_number Sample.to_string Sample.stringify Sample.requests initial_state))
  = ["ORD-1010"; "ORD-1011"; "ORD-1012"].
Proof. reflexivity. Qed.

Lemma order_ids_strictly_increase_witness :
  exists ns,
    created_ids
      (fst (serve Sample.to_number Sample.to_string Sample.stringify Sample.requests
              initial_state))
    = map (fun n => "ORD-" ++ decimal n) ns
    /\ StronglySorted Z.lt ns
    /\ Forall (fun n => 1010 <= n)%Z ns
    /\ NoDup
         (created_ids
            (fst (serve Sample.to_number Sample.to_string Sample.stringify Sample.requests
                    initial_state))).
Proof.
  apply (order_ids_strictly_increase Sample.to_number Sample.to_string Sample.stringify
           Sample.requests).
  vm_compute. discriminate.
Defined.




(** The specification's examples of the payout, and a [null] item. *)
Lemma payout_examples :
  payout Sample.to_number [Some (mkItem None (JNumber 100) (JNumber 2))]
  = Normal 30%float
  /\ payout Sample.to_number [Some Sample.pizzas] = Normal 100%float
  /\ payout Sample.to_number [Some Sample.pizzas; Some Sample.no_quantity]
     = Normal 140%float
  /\ payout Sample.to_number [Some Sample.pizzas; None] = Throw "TypeError".
Proof. repeat split. Qed.

(** A request with a [null] item passes validation and is answered 500:
    no order is stored, no client is written to, and the identifier
    [ORD-1011] is lost. *)
Lemma null_item_create :
  validate_create (create_body Sample.null_item_request) = []
  /\ create_order Sample.to_number Sample.to_string Sample.stringify
       Sample.null_item_request
       (Sample.state_of "pending" [Sample.open_client])
     = (server_error,
        mkState [("ORD-1010", Sample.order)] 1012%float [Sample.open_client])
  /\ created_ids
       (fst (serve Sample.to_number Sample.to_string Sample.stringify
               Sample.requests_with_null initial_state))
     = ["ORD-1010"; "ORD-1012"].
Proof. repeat split. Qed.

(** ** Further properties on sample data *)

(** The sample order is still stored after it was cancelled, another
    order was created and a stream was closed. *)
Lemma orders_are_never_deleted_witness :
  exists o',
    Map_get "ORD-1010"
      (inMemoryOrders
         (snd (serve Sample.to_number Sample.to_string Sample.stringify
                 [Mutate (UpdateStatus "ORD-1010" (Some "cancelled"));
                  CreateOrder (Sample.request_of [Sample.no_quantity]);
                  EventsClose 1]
                 Sample.placed)))
    = Some o'.
Proof.
  exact (orders_are_never_deleted Sample.to_number Sample.to_string
           Sample.stringify
           [Mutate (UpdateStatus "ORD-1010" (Some "cancelled"));
            CreateOrder (Sample.request_of [Sample.no_quantity]);
            EventsClose 1]
           Sample.placed "ORD-1010" Sample.order eq_refl).
Defined.

(** After the sample requests the first order is out for delivery. *)
Lemma stored_status_is_enumerated_witness :
  In (status
        (set_driver (mkDriver (Some "d7") "Ravi")
           (set_status "out_for_delivery" Sample.order)))
    order_statuses.
Proof.
  exact (stored_status_is_enumerated Sample.to_number Sample.to_string
           Sample.stringify Sample.requests "ORD-1010"
           (set_driver (mkDriver (Some "d7") "Ravi")
              (set_status "out_for_delivery" Sample.order))
           eq_refl).
Defined.


(** After two creations, one creation that failed on a [null] item and
    one that was refused, the counter holds 1013. *)
Lemma counter_counts_created_witness :
  nextOrderNumericId
    (snd (serve Sample.to_number Sample.to_string Sample.stringify
            Sample.requests_with_null initial_state))
  = float_of_Z 1013.
Proof.
  apply (counter_counts_created Sample.to_number Sample.to_string
           Sample.stringify Sample.requests_with_null).
  vm_compute. discriminate.
Defined.

(** One more creation after the sample requests leaves the first order,
    by then assigned, as it is. *)
Lemma create_keeps_stored_orders_witness :
  Map_get "ORD-1010"
    (inMemoryOrders
       (snd (create_order Sample.to_number Sample.to_string Sample.stringify
               (Sample.request_of [Sample.pizzas])
               (snd (serve Sample.to_number Sample.to_string Sample.stringify
                       Sample.requests initial_state)))))
  = Some (set_driver (mkDriver (Some "d7") "Ravi")
            (set_status "out_for_delivery" Sample.order)).
Proof.
  apply (create_keeps_stored_orders Sample.to_number Sample.to_string
           Sample.stringify Sample.requests
           (Sample.request_of [Sample.pizzas]) "ORD-1010").
  - vm_compute. reflexivity.
  - reflexivity.
Defined.

(** The first order of the sample requests is out for delivery: neither
    a second assign nor an accept-by-restaurant changes it. *)
Lemma picked_up_orders_are_frozen_witness :
  Map_get "ORD-1010"
    (inMemoryOrders
       (run Sample.stringify
          [Assign "ORD-1010" (Some Sample.asha); AcceptRestaurant "ORD-1010"]
          (snd (serve Sample.to_number Sample.to_string Sample.stringify
                  Sample.requests initial_state))))
  = Some (set_driver (mkDriver (Some "d7") "Ravi")
            (set_status "out_for_delivery" Sample.order)).
Proof.
  exact (picked_up_orders_are_frozen Sample.to_number Sample.to_string
           Sample.stringify Sample.requests
           [Assign "ORD-1010" (Some Sample.asha); AcceptRestaurant "ORD-1010"]
           "ORD-1010"
           (set_driver (mkDriver (Some "d7") "Ravi")
              (set_status "out_for_delivery" Sample.order))
           eq_refl eq_refl eq_refl).
Defined.

(** The new order set to preparing and then to cancelled, and set to
    cancelled at once. *)
Lemma update_status_last_wins_witness :
  let st :=
    snd (serve Sample.to_number Sample.to_string Sample.stringify
           [CreateOrder (Sample.request_of [Sample.pizzas])] initial_state) in
  inMemoryOrders
    (snd (update_status Sample.stringify "ORD-1010" (Some "cancelled")
            (snd (update_status Sample.stringify "ORD-1010" (Some "preparing")
                    st))))
  = inMemoryOrders
      (snd (update_status Sample.stringify "ORD-1010" (Some "cancelled") st)).
Proof.
  apply (update_status_last_wins Sample.to_number Sample.to_string
           Sample.stringify
           [CreateOrder (Sample.request_of [Sample.pizzas])]
           "ORD-1010" (Some "preparing") "cancelled").
  simpl. auto 10.
Defined.

(** Two orders are placed; assigning the first leaves the second alone
    on the available list. *)
Lemma assign_takes_order_off_available_list_witness :
  let st :=
    snd (serve Sample.to_number Sample.to_string Sample.stringify
           [CreateOrder (Sample.request_of [Sample.pizzas]);
            CreateOrder (Sample.request_of [Sample.no_quantity])]
           initial_state) in
  available_orders (snd (assign Sample.stringify "ORD-1010" (Some Sample.ravi) st))
  = filter (fun x => negb (String.eqb (id x) "ORD-1010")) (available_orders st).
Proof.
  exact (assign_takes_order_off_available_list Sample.to_number
           Sample.to_string Sample.stringify
           [CreateOrder (Sample.request_of [Sample.pizzas]);
            CreateOrder (Sample.request_of [Sample.no_quantity])]
           "ORD-1010" (Some Sample.ravi) Sample.order eq_refl eq_refl).
Defined.

(** A late client connects to a process that has one client and one
    order, and disconnects. *)
Lemma subscribe_then_close_restores_witness :
  let st := Sample.state_of "pending" [Sample.open_client] in
  sseClients (snd (events Sample.late_client st))
  = [Sample.open_client; mkRes 3 true [": connected" ++ nl ++ nl]]
  /\ snd (events_close 3 (snd (events Sample.late_client st))) = st.
Proof.
  exact (subscribe_then_close_restores
           (Sample.state_of "pending" [Sample.open_client])
           Sample.late_client eq_refl eq_refl).
Defined.

(** A client connected from the start receives, over the sample
    requests, the frames of the three creations and of the assignment;
    the refused creation and the read reach it as nothing. *)
Lemma subscriber_receives_events_in_order_witness :
  let st := mkState [] 1010%float [Sample.late_client] in
  exists res',
    In res'
      (sseClients
         (snd (serve Sample.to_number Sample.to_string Sample.stringify
                 Sample.requests st)))
    /\ res_id res' = 3
    /\ res_writable res' = true
    /\ res_written res'
       = published_all Sample.stringify Sample.requests
           (fst (serve Sample.to_number Sample.to_string Sample.stringify
                   Sample.requests st)).
Proof.
  exact (subscriber_receives_events_in_order Sample.to_number
           Sample.to_string Sample.stringify Sample.requests
           (mkState [] 1010%float [Sample.late_client]) Sample.late_client
           (or_introl eq_refl) eq_refl eq_refl).
Defined.


(** The first order of the sample requests, by then assigned, stems from
    one of their creation requests. *)
Lemma stored_orders_stem_from_creations_witness :
  let o :=
    set_driver (mkDriver (Some "d7") "Ravi")
      (set_status "out_for_delivery" Sample.order) in
  exists req o0,
    In (CreateOrder req) Sample.requests
    /\ validate_create (create_body req) = []
    /\ new_order Sample.to_number req "ORD-1010" = Normal o0
    /\ fixed_fields o = fixed_fields o0
    /\ items o <> []
    /\ all_objects (items o) = true
    /\ payout Sample.to_number (items o) = Normal (payoutAmount o).
Proof.
  exact (stored_orders_stem_from_creations Sample.to_number Sample.to_string
           Sample.stringify Sample.requests "ORD-1010"
           (set_driver (mkDriver (Some "d7") "Ravi")
              (set_status "out_for_delivery" Sample.order))
           eq_refl).
Defined.
